(** * Stellar command layer: snapshot, restore, rename, replace, gc

    A shallow embedding of [stellar/command.py].  The commands are written
    as programs over the calls they make (methods of the [Stellar]
    application object, [click.echo], [sys.exit], [sleep]); a handler gives
    those calls a meaning on an explicit world (registry, physical storage,
    tracked databases, background workers, terminal). *)

From stdpp Require Import base option list strings pretty gmap.

Local Open Scope string_scope.
Local Open Scope list_scope.
Local Open Scope stdpp_scope.

(** ** Data model *)

(** Contents of one tracked database, as far as copies are concerned. *)
Definition rows : Type := list nat.

(** A row of the snapshot table, with the attributes the commands read:
    [snapshot.snapshot_name], [snapshot.created_at], [snapshot.slaves_ready]
    and [snapshot.worker_pid]; [storage_location] is where its copies live. *)
Record Snapshot : Type := mkSnapshot {
  snapshot_name : string;
  created_at : nat;
  slaves_ready : bool;
  worker_pid : option nat;
  storage_location : string }.

#[global] Instance Snapshot_eq_dec : EqDecision Snapshot.
Proof. solve_decision. Defined.

(** The keys of [stellar.yaml] (written by [init], read by [load_config]). *)
Record Config : Type := mkConfig {
  project_name : string;
  tracked_databases : list string;
  url : string;
  stellar_url : string }.

(** Named failure conditions returned by the engine as values. *)
Inductive failure : Type := NameCollision | NotFound.

#[global] Instance failure_eq_dec : EqDecision failure.
Proof. solve_decision. Defined.

(** Python exceptions that travel through the commands. *)
Inductive exn : Type :=
| MissingConfig
| InvalidConfig (message : string)
| ImportError (message : string)
| UnsupportedDialect
| OperationalError
| ObjectDeletedError.

#[global] Instance exn_eq_dec : EqDecision exn.
Proof. solve_decision. Defined.

(** The two local callbacks defined in command.py: [before_copy] inside
    [snapshot] and [after_delete] inside [gc].  Both echo one line. *)
Inductive hook : Type := before_copy | after_delete.

#[global] Instance hook_eq_dec : EqDecision hook.
Proof. solve_decision. Defined.

Definition hook_line (h : hook) (arg : string) : string :=
  match h with
  | before_copy => "Snapshotting database " +:+ arg
  | after_delete => "Deleted table " +:+ arg
  end.

(** ** Calls made by the commands *)

Module Stellar.

(** Methods and attributes of the application object used by command.py.
    [new] is the constructor call [Stellar()] made by [get_app];
    [refresh] is [app.db.session.refresh(snapshot)]. *)
Inductive method : Type :=
| new
| default_snapshot_name
| get_snapshot (name : string)
| get_snapshots
| get_latest_snapshot
| create_snapshot (name : string) (before_copy : option hook)
| remove_snapshot (snapshot : Snapshot)
| rename_snapshot (snapshot : Snapshot) (new_name : string)
| is_copy_process_running (snapshot : Snapshot)
| inline_slave_copy (snapshot : Snapshot)
| restore (snapshot : Snapshot)
| delete_orphan_snapshots (after_delete : option hook)
| refresh (snapshot : Snapshot).

#[global] Instance method_eq_dec : EqDecision method.
Proof. solve_decision. Defined.

Definition returns (m : method) : Type :=
  match m with
  | new => unit
  | default_snapshot_name => string
  | get_snapshot _ => option Snapshot
  | get_snapshots => list Snapshot
  | get_latest_snapshot => option Snapshot
  | create_snapshot _ _ => (failure + Snapshot)%type
  | remove_snapshot _ => unit
  | rename_snapshot _ _ => (failure + unit)%type
  | is_copy_process_running _ => bool
  | inline_slave_copy _ => unit
  | restore _ => unit
  | delete_orphan_snapshots _ => list string
  | refresh _ => Snapshot
  end.

End Stellar.

(** Everything a command can ask of its environment. *)
Inductive Op : Type :=
| app (m : Stellar.method)
| load_config
| click_echo (message : string)
| stdout_write (text : string)
| stdout_flush
| sleep (seconds : nat)
| utcnow
| naturaltime (delta : Z).

#[global] Instance Op_eq_dec : EqDecision Op.
Proof. solve_decision. Defined.

Definition ret (op : Op) : Type :=
  match op with
  | app m => Stellar.returns m
  | load_config => Config
  | click_echo _ => unit
  | stdout_write _ => unit
  | stdout_flush => unit
  | sleep _ => unit
  | utcnow => nat
  | naturaltime _ => string
  end.

(** ** Programs *)

(** A command is a tree of calls.  [Exit] is [sys.exit(status)]; [Spin]
    marks a loop whose iteration budget ran out before its condition
    became false. *)
Inductive Prog (A : Type) : Type :=
| Ret (a : A)
| Exit (status : nat)
| Spin
| Do (op : Op) (k : ret op -> Prog A).

Arguments Ret {A} a.
Arguments Exit {A} status.
Arguments Spin {A}.
Arguments Do {A} op k.

Fixpoint bind {A B : Type} (p : Prog A) (f : A -> Prog B) : Prog B :=
  match p with
  | Ret a => f a
  | Exit n => Exit n
  | Spin => Spin
  | Do op k => Do op (fun r => bind (k r) f)
  end.

#[global] Instance Prog_ret : MRet Prog := fun A a => Ret a.
#[global] Instance Prog_bind : MBind Prog := fun A B f p => bind p f.

Definition perform (op : Op) : Prog (ret op) := Do op Ret.
Definition call (m : Stellar.method) : Prog (Stellar.returns m) := perform (app m).
Definition echo (message : string) : Prog unit := perform (click_echo message).

(** ** Python values as conditions *)

(** [if name:] and [name or default] on an optional click argument:
    [None] and the empty string are false. *)
Definition truthy (name : option string) : bool :=
  match name with
  | Some (String _ _) => true
  | _ => false
  end.

Definition given (name : option string) : string := default "" name.

(** [str(x)] for a value that is an integer or [None]. *)
Definition str_pid (p : option nat) : string :=
  match p with
  | Some n => pretty n
  | None => "None"
  end.

Definition newline : string := String (Ascii.ascii_of_nat 10) EmptyString.

(** ['\n'.join(lines)] *)
Fixpoint join_lines (lines : list string) : string :=
  match lines with
  | [] => ""
  | [l] => l
  | l :: rest => l +:+ newline +:+ join_lines rest
  end.

(** [needle in hay] on strings. *)
Fixpoint contains (needle hay : string) : bool :=
  String.prefix needle hay ||
  match hay with
  | EmptyString => false
  | String _ hay' => contains needle hay'
  end.

(** ** The commands of command.py *)

Module command.

(** [get_app()]: constructs the application object. *)
Definition get_app : Prog unit := call Stellar.new.

Definition gc : Prog unit :=
  get_app;;
  _ ← call (Stellar.delete_orphan_snapshots (Some after_delete));
  Ret tt.

Definition snapshot (name : option string) : Prog unit :=
  get_app;;
  name ← (if truthy name then Ret (given name)
          else call Stellar.default_snapshot_name);
  existing ← call (Stellar.get_snapshot name);
  match existing with
  | Some _ =>
      echo ("Snapshot with name " +:+ name +:+ " already exists");;
      Exit 1
  | None =>
      _ ← call (Stellar.create_snapshot name (Some before_copy));
      Ret tt
  end.

Fixpoint list_lines (snapshots : list Snapshot) : Prog (list string) :=
  match snapshots with
  | [] => Ret []
  | s :: rest =>
      now ← perform utcnow;
      ago ← perform (naturaltime (Z.of_nat now - Z.of_nat (created_at s)));
      lines ← list_lines rest;
      Ret ((snapshot_name s +:+ ": " +:+ ago) :: lines)
  end.

Definition list : Prog unit :=
  get_app;;
  snapshots ← call Stellar.get_snapshots;
  lines ← list_lines snapshots;
  echo (join_lines lines).

(** The polling loop of [restore]:
    [while not snapshot.slaves_ready: write('.'); flush(); sleep(1);
     refresh(snapshot)].  [budget] bounds the number of iterations. *)
Fixpoint wait_for_slaves (budget : nat) (snapshot : Snapshot) : Prog Snapshot :=
  if slaves_ready snapshot then Ret snapshot
  else match budget with
       | 0 => Spin
       | S budget' =>
           perform (stdout_write ".");;
           perform stdout_flush;;
           perform (sleep 1);;
           snapshot' ← call (Stellar.refresh snapshot);
           wait_for_slaves budget' snapshot'
       end.

Definition restore (budget : nat) (name : option string) : Prog unit :=
  get_app;;
  snapshot ← (if negb (truthy name) then
                found ← call Stellar.get_latest_snapshot;
                match found with
                | Some s => Ret s
                | None =>
                    cfg ← perform load_config;
                    echo ("Couldn't find any snapshots for project " +:+
                          project_name cfg);;
                    Exit 1
                end
              else
                found ← call (Stellar.get_snapshot (given name));
                match found with
                | Some s => Ret s
                | None =>
                    echo ("Couldn't find snapshot with name " +:+ given name +:+
                          "." +:+ newline +:+
                          "You can list snapshots with 'stellar list'");;
                    Exit 1
                end);
  snapshot ← (if negb (slaves_ready snapshot) then
                running ← call (Stellar.is_copy_process_running snapshot);
                if (running : bool) then
                  perform (stdout_write
                    ("Waiting for background process(" +:+
                     str_pid (worker_pid snapshot) +:+ ") to finish"));;
                  perform stdout_flush;;
                  snapshot' ← wait_for_slaves budget snapshot;
                  echo "";;
                  Ret snapshot'
                else
                  echo "Background process missing, doing slow restore.";;
                  call (Stellar.inline_slave_copy snapshot);;
                  Ret snapshot
              else Ret snapshot);
  call (Stellar.restore snapshot);;
  echo "Restore complete.".

Definition remove (name : string) : Prog unit :=
  get_app;;
  found ← call (Stellar.get_snapshot name);
  match found with
  | None => echo ("Couldn't find snapshot " +:+ name);; Exit 1
  | Some snapshot =>
      echo ("Deleting snapshot " +:+ name);;
      call (Stellar.remove_snapshot snapshot);;
      echo "Deleted"
  end.

Definition rename (old_name new_name : string) : Prog unit :=
  get_app;;
  found ← call (Stellar.get_snapshot old_name);
  match found with
  | None => echo ("Couldn't find snapshot " +:+ old_name);; Exit 1
  | Some snapshot =>
      new_snapshot ← call (Stellar.get_snapshot new_name);
      match new_snapshot with
      | Some _ =>
          echo ("Snapshot with name " +:+ new_name +:+ " already exists");;
          Exit 1
      | None =>
          _ ← call (Stellar.rename_snapshot snapshot new_name);
          echo ("Renamed snapshot " +:+ old_name +:+ " to " +:+ new_name)
      end
  end.

Definition replace (name : string) : Prog unit :=
  get_app;;
  found ← call (Stellar.get_snapshot name);
  match found with
  | None => echo ("Couldn't find snapshot " +:+ name);; Exit 1
  | Some snapshot =>
      call (Stellar.remove_snapshot snapshot);;
      _ ← call (Stellar.create_snapshot name None);
      echo ("Replaced snapshot " +:+ name)
  end.

End command.

(** [stellar()]: the click group dispatching on the command line.  The
    interactive [init] wizard and [version] never touch the application
    object and are left out. *)
Inductive argv : Type :=
| run_gc
| run_snapshot (name : option string)
| run_list
| run_restore (name : option string)
| run_remove (name : string)
| run_rename (old_name new_name : string)
| run_replace (name : string).

Definition stellar (budget : nat) (args : argv) : Prog unit :=
  match args with
  | run_gc => command.gc
  | run_snapshot name => command.snapshot name
  | run_list => command.list
  | run_restore name => command.restore budget name
  | run_remove name => command.remove name
  | run_rename old_name new_name => command.rename old_name new_name
  | run_replace name => command.replace name
  end.

(** The [libraries] dictionary of [main], in source order. *)
Definition libraries : list (string * string) :=
  [("psycopg2", "PostgreSQL"); ("pymysql", "MySQL")].

(** The body of [except ImportError as e] in [main]: returning normally
    stands for reaching the final [raise]. *)
Fixpoint on_import_error (libs : list (string * string)) (e : string) : Prog unit :=
  match libs with
  | [] => Ret tt
  | (library, name) :: rest =>
      if contains "No module named" e && contains library e then
        echo ("Python library " +:+ library +:+ " is required for " +:+
              name +:+ " support.");;
        echo "You can install it with pip:";;
        echo ("pip install " +:+ library);;
        Exit 1
      else if contains "No module named" e && contains "MySQLdb" e then
        echo ("MySQLdb binary drivers are required for MySQL support. " +:+
              "You can try installing it with these instructions: " +:+
              "http://stackoverflow.com/questions/454854/no-module-named" +:+
              "-mysqldb");;
        echo "";;
        echo "Alternatively you can use pymysql instead:";;
        echo "1. Install it first: pip install pymysql";;
        echo ("2. Specify database url as " +:+
              "mysql+pymysql://root@localhost/ and not as " +:+
              "mysql://root@localhost/");;
        Exit 1
      else on_import_error rest e
  end.

(** What [main] does with an exception escaping [stellar()]; [None] when
    no [except] clause matches. *)
Definition on_exception (e : exn) : option (Prog unit) :=
  match e with
  | MissingConfig =>
      Some (echo "You don't have stellar.yaml configuration yet.";;
            echo "Initialize it by running: stellar init";;
            Exit 1)
  | InvalidConfig message =>
      Some (echo ("Your stellar.yaml configuration is wrong: " +:+ message);;
            Exit 1)
  | ImportError message => Some (on_import_error libraries message)
  | _ => None
  end.

(** ** The world the commands act on *)

(** A detached copy process. *)
Record Worker : Type := mkWorker {
  pid : nat;
  todo : list string;
  observer : option hook;
  killed_in : option nat }.

Record World : Type := mkWorld {
  config : exn + Config;
  default_name : string;
  humanize : Z -> string;
  registry : list Snapshot;
  storage : gmap string (gmap string rows);
  databases : gmap string rows;
  workers : list Worker;
  next_pid : nat;
  clock : nat;
  outage_in : option nat;
  stdout : list string }.

Definition set_registry (r : list Snapshot) (w : World) : World :=
  mkWorld (config w) (default_name w) (humanize w) r (storage w) (databases w)
          (workers w) (next_pid w) (clock w) (outage_in w) (stdout w).

Definition set_storage (s : gmap string (gmap string rows)) (w : World) : World :=
  mkWorld (config w) (default_name w) (humanize w) (registry w) s (databases w)
          (workers w) (next_pid w) (clock w) (outage_in w) (stdout w).

Definition set_databases (d : gmap string rows) (w : World) : World :=
  mkWorld (config w) (default_name w) (humanize w) (registry w) (storage w) d
          (workers w) (next_pid w) (clock w) (outage_in w) (stdout w).

Definition set_workers (ws : list Worker) (w : World) : World :=
  mkWorld (config w) (default_name w) (humanize w) (registry w) (storage w)
          (databases w) ws (next_pid w) (clock w) (outage_in w) (stdout w).

Definition set_next_pid (n : nat) (w : World) : World :=
  mkWorld (config w) (default_name w) (humanize w) (registry w) (storage w)
          (databases w) (workers w) n (clock w) (outage_in w) (stdout w).

Definition set_clock (n : nat) (w : World) : World :=
  mkWorld (config w) (default_name w) (humanize w) (registry w) (storage w)
          (databases w) (workers w) (next_pid w) n (outage_in w) (stdout w).

Definition set_outage_in (o : option nat) (w : World) : World :=
  mkWorld (config w) (default_name w) (humanize w) (registry w) (storage w)
          (databases w) (workers w) (next_pid w) (clock w) o (stdout w).

Definition print (text : string) (w : World) : World :=
  mkWorld (config w) (default_name w) (humanize w) (registry w) (storage w)
          (databases w) (workers w) (next_pid w) (clock w) (outage_in w)
          (stdout w ++ [text]).

(** [click.echo(message)] writes the message and a newline. *)
Definition echoed (message : string) (w : World) : World :=
  print (message +:+ newline) w.

(** The tracked databases named by the configuration. *)
Definition tracked (w : World) : list string :=
  match config w with
  | inr cfg => tracked_databases cfg
  | inl _ => []
  end.

(** ** Snapshot Registry *)

Module Registry.

(** Modelled from the spec: the registry contract of section 4.1
    ([get], [latest], [insert], [delete], [rename], [mark_ready]); its
    implementation (the application object and its tables) is not part of
    the sources.  Records are kept in insertion order. *)
Definition named (name : string) (s : Snapshot) : bool :=
  bool_decide (snapshot_name s = name).

Definition get (name : string) (reg : list Snapshot) : option Snapshot :=
  List.find (named name) reg.

(** The record with the largest [created_at]; among equal timestamps the
    one inserted first. *)
Fixpoint latest (reg : list Snapshot) : option Snapshot :=
  match reg with
  | [] => None
  | s :: rest =>
      match latest rest with
      | Some s' => if Nat.ltb (created_at s) (created_at s') then Some s' else Some s
      | None => Some s
      end
  end.

(** Atomic create-if-absent. *)
Definition insert (s : Snapshot) (reg : list Snapshot) : failure + list Snapshot :=
  match get (snapshot_name s) reg with
  | Some _ => inl NameCollision
  | None => inr (reg ++ [s])
  end.

Definition delete (name : string) (reg : list Snapshot) : failure + list Snapshot :=
  match get name reg with
  | Some _ => inr (List.filter (fun s => negb (named name s)) reg)
  | None => inl NotFound
  end.

Definition relabel (old new location : string) (s : Snapshot) : Snapshot :=
  if named old s
  then mkSnapshot new (created_at s) (slaves_ready s) (worker_pid s) location
  else s.

(** Both the name and the storage location change, or neither. *)
Definition rename (old new location : string) (reg : list Snapshot)
  : failure + list Snapshot :=
  match get old reg, get new reg with
  | None, _ => inl NotFound
  | Some _, Some _ => inl NameCollision
  | Some _, None => inr (relabel old new location <$> reg)
  end.

Definition ready_now (s : Snapshot) : Snapshot :=
  if slaves_ready s then s
  else mkSnapshot (snapshot_name s) (created_at s) true None (storage_location s).

(** Idempotent; the worker handle is present only while not ready. *)
Definition mark_ready (name : string) (reg : list Snapshot) : list Snapshot :=
  (fun s => if named name s then ready_now s else s) <$> reg.

Definition owned_by (p : nat) (reg : list Snapshot) : option Snapshot :=
  List.find (fun s => bool_decide (worker_pid s = Some p)) reg.

End Registry.

(** ** Copy Strategy and physical storage *)

(** Modelled from the spec: the storage location is a pure function of the
    snapshot name, and snapshot storage is recognised by a naming
    convention; neither is in the sources.  The marker is the one [init]
    uses to hide the tool's own objects ([db.startswith('stellar_')]). *)
Definition storage_prefix : string := "stellar_".

Definition location_of (name : string) : string := storage_prefix +:+ name.

Definition is_snapshot_storage (location : string) : bool :=
  String.prefix storage_prefix location.

(** Modelled from the spec: [copy_forward(source_table,
    destination_location)] and [copy_backward(source_location,
    destination_table)] of section 4.2. *)
Definition copy_forward (table location : string) (w : World) : World :=
  let copies := default ∅ (storage w !! location) in
  let data := default [] (databases w !! table) in
  set_storage (<[location := <[table := data]> copies]> (storage w)) w.

Definition copy_backward (location table : string) (w : World) : World :=
  match storage w !! location ≫= (.!! table) with
  | Some data => set_databases (<[table := data]> (databases w)) w
  | None => w
  end.

Definition mark_ready (name : string) (w : World) : World :=
  set_registry (Registry.mark_ready name (registry w)) w.

(** ** Copy Worker *)

(** Modelled from the spec: the detached worker of section 4.3.  At each
    tick of the clock a worker copies its next tracked database (calling
    the observer first), or, with nothing left to copy, marks its snapshot
    ready and ends.  A worker finds its record by the handle it recorded
    there.  [killed_in] counts the ticks a process has left when something
    outside kills it. *)
Definition observe (h : option hook) (table : string) (w : World) : World :=
  match h with
  | Some f => echoed (hook_line f table) w
  | None => w
  end.

Definition worker_step (wk : Worker) (w : World) : World * option Worker :=
  match killed_in wk with
  | Some 0 => (w, None)
  | _ =>
      match Registry.owned_by (pid wk) (registry w) with
      | None => (w, None)
      | Some s =>
          match todo wk with
          | [] => (mark_ready (snapshot_name s) w, None)
          | table :: rest =>
              (copy_forward table (storage_location s) (observe (observer wk) table w),
               Some (mkWorker (pid wk) rest (observer wk) (pred <$> killed_in wk)))
          end
      end
  end.

Fixpoint run_workers (wks : list Worker) (w : World) : World * list Worker :=
  match wks with
  | [] => (w, [])
  | wk :: rest =>
      let '(w1, alive) := worker_step wk w in
      let '(w2, others) := run_workers rest w1 in
      (w2, option_list alive ++ others)
  end.

(** One second passes. *)
Definition tick (w : World) : World :=
  let '(w', wks) := run_workers (workers w) w in
  set_clock (S (clock w')) (set_workers wks w').

(** ** Snapshot Engine *)

Module Engine.

(** Modelled from the spec: the engine operations of section 4.4 behind
    the methods of the application object, which is not part of the
    sources. *)
Definition create (name : string) (h : option hook) (w : World)
  : (failure + Snapshot) * World :=
  let s := mkSnapshot name (clock w) false (Some (next_pid w)) (location_of name) in
  match Registry.insert s (registry w) with
  | inl f => (inl f, w)
  | inr reg =>
      (inr s,
       set_next_pid (S (next_pid w))
         (set_workers (workers w ++ [mkWorker (next_pid w) (tracked w) h None])
            (set_registry reg w)))
  end.

(** Storage first, then the registry record; a missing record is not an
    error. *)
Definition remove (s : Snapshot) (w : World) : World :=
  let w1 := set_storage (delete (storage_location s) (storage w)) w in
  match Registry.delete (snapshot_name s) (registry w1) with
  | inr reg => set_registry reg w1
  | inl _ => w1
  end.

Definition move_storage (from to : string) (st : gmap string (gmap string rows))
  : gmap string (gmap string rows) :=
  match st !! from with
  | Some copies => <[to := copies]> (delete from st)
  | None => delete to st
  end.

Definition rename (s : Snapshot) (new_name : string) (w : World)
  : (failure + unit) * World :=
  match Registry.rename (snapshot_name s) new_name (location_of new_name) (registry w) with
  | inl f => (inl f, w)
  | inr reg =>
      let from := default (storage_location s)
                    (storage_location <$> Registry.get (snapshot_name s) (registry w)) in
      (inr tt,
       set_storage (move_storage from (location_of new_name) (storage w))
         (set_registry reg w))
  end.

Definition is_worker_alive (s : Snapshot) (w : World) : bool :=
  match worker_pid s with
  | Some p => bool_decide (p ∈ pid <$> workers w)
  | None => false
  end.

Definition inline_copy (s : Snapshot) (w : World) : World :=
  mark_ready (snapshot_name s)
    (foldl (fun acc table => copy_forward table (storage_location s) acc) w (tracked w)).

Definition restore (s : Snapshot) (w : World) : World :=
  foldl (fun acc table => copy_backward (storage_location s) table acc) w (tracked w).

Definition referenced (location : string) (reg : list Snapshot) : bool :=
  bool_decide (location ∈ storage_location <$> reg).

Definition orphans (w : World) : list string :=
  List.filter (fun location => is_snapshot_storage location &&
                               negb (referenced location (registry w)))
              (map_to_list (storage w)).*1.

(** Deleting one object and telling the callback. *)
Definition sweep (h : option hook) (acc : World) (location : string) : World :=
  observe h location (set_storage (delete location (storage acc)) acc).

Definition gc (h : option hook) (w : World) : list string * World :=
  let doomed := orphans w in
  (doomed, foldl (sweep h) w doomed).

End Engine.

(** ** Meaning of the calls *)

(** The connection to the database: [outage_in w = Some n] lets [n] more
    calls reach it before it is lost, [None] keeps it up. *)
Definition connect (w : World) : option World :=
  match outage_in w with
  | None => Some w
  | Some 0 => None
  | Some (S n) => Some (set_outage_in (Some n) w)
  end.

Definition reaches_database (m : Stellar.method) : bool :=
  match m with
  | Stellar.default_snapshot_name | Stellar.is_copy_process_running _ => false
  | _ => true
  end.

Definition serve (m : Stellar.method) (w : World) : (exn + Stellar.returns m) * World :=
  match m as m0 return (exn + Stellar.returns m0) * World with
  | Stellar.new => (inr tt, w)
  | Stellar.default_snapshot_name => (inr (default_name w), w)
  | Stellar.get_snapshot name => (inr (Registry.get name (registry w)), w)
  | Stellar.get_snapshots => (inr (registry w), w)
  | Stellar.get_latest_snapshot => (inr (Registry.latest (registry w)), w)
  | Stellar.create_snapshot name h =>
      let '(r, w') := Engine.create name h w in (inr r, w')
  | Stellar.remove_snapshot s => (inr tt, Engine.remove s w)
  | Stellar.rename_snapshot s new_name =>
      let '(r, w') := Engine.rename s new_name w in (inr r, w')
  | Stellar.is_copy_process_running s => (inr (Engine.is_worker_alive s w), w)
  | Stellar.inline_slave_copy s => (inr tt, Engine.inline_copy s w)
  | Stellar.restore s => (inr tt, Engine.restore s w)
  | Stellar.delete_orphan_snapshots h =>
      let '(r, w') := Engine.gc h w in (inr r, w')
  | Stellar.refresh s =>
      match Registry.get (snapshot_name s) (registry w) with
      | Some s' => (inr s', w)
      | None => (inl ObjectDeletedError, w)
      end
  end.

(** Modelled from the spec: configuration, driver and connectivity
    failures surface while the application object is constructed, before
    any registry access (section 7); later calls fail only by losing the
    connection. *)
Definition dispatch (m : Stellar.method) (w : World) : (exn + Stellar.returns m) * World :=
  match config w with
  | inl e => (inl e, w)
  | inr _ =>
      if reaches_database m then
        match connect w with
        | Some w' => serve m w'
        | None => (inl OperationalError, w)
        end
      else serve m w
  end.

Definition handle (op : Op) (w : World) : (exn + ret op) * World :=
  match op as o return (exn + ret o) * World with
  | app m => dispatch m w
  | load_config =>
      match config w with
      | inl e => (inl e, w)
      | inr cfg => (inr cfg, w)
      end
  | click_echo message => (inr tt, echoed message w)
  | stdout_write text => (inr tt, print text w)
  | stdout_flush => (inr tt, w)
  | sleep seconds => (inr tt, Nat.iter seconds tick w)
  | utcnow => (inr (clock w), w)
  | naturaltime delta => (inr (humanize w delta), w)
  end.

(** ** Running one command *)

Inductive outcome (A : Type) : Type :=
| Returned (a : A)
| Exited (status : nat)
| Raised (e : exn)
| Spinning.

Arguments Returned {A} a.
Arguments Exited {A} status.
Arguments Raised {A} e.
Arguments Spinning {A}.

Record Run (A : Type) : Type := mkRun {
  result : outcome A;
  final : World;
  calls : list Op }.

Arguments mkRun {A} result final calls.
Arguments result {A} r.
Arguments final {A} r.
Arguments calls {A} r.

(** A run that started with the call [op]. *)
Definition after {A : Type} (op : Op) (rest : Run A) : Run A :=
  mkRun (result rest) (final rest) (op :: calls rest).

Fixpoint run {A : Type} (p : Prog A) (w : World) : Run A :=
  match p with
  | Ret a => mkRun (Returned a) w []
  | Exit status => mkRun (Exited status) w []
  | Spin => mkRun Spinning w []
  | Do op k =>
      match handle op w with
      | (inl e, w') => mkRun (Raised e) w' [op]
      | (inr r, w') => after op (run (k r) w')
      end
  end.

(** [main()]: the [try] around [stellar()] and its [except] clauses.  An
    exception no clause takes, or that the [ImportError] clause raises
    again, leaves [main] as it came. *)
Definition main (budget : nat) (args : argv) (w : World) : Run unit :=
  let r := run (stellar budget args) w in
  match result r with
  | Raised e =>
      match on_exception e with
      | Some handler =>
          let r' := run handler (final r) in
          match result r' with
          | Returned _ => mkRun (Raised e) (final r') (calls r ++ calls r')
          | o => mkRun o (final r') (calls r ++ calls r')
          end
      | None => r
      end
  | _ => r
  end.

(** The status the operating system sees: [sys.exit(n)] gives [n], a
    normal return 0, an uncaught exception 1; a command still polling has
    none. *)
Definition exit_status {A : Type} (o : outcome A) : option nat :=
  match o with
  | Returned _ => Some 0
  | Exited n => Some n
  | Raised _ => Some 1
  | Spinning => None
  end.

(** ** Several commands at once *)

(** Independent processes share the world; each call is one indivisible
    step, and a schedule names the process taking the next step. *)
Inductive process : Type :=
| Running (p : Prog unit)
| Finished (o : outcome unit).

Definition settle (p : Prog unit) : process :=
  match p with
  | Ret a => Finished (Returned a)
  | Exit status => Finished (Exited status)
  | Spin => Finished Spinning
  | Do _ _ => Running p
  end.

(** A call carried out by a process, with the registry it met. *)
Record Event : Type := mkEvent {
  actor : nat;
  action : Op;
  met : list Snapshot }.

Definition step (i : nat) (ps : list process) (w : World)
  : list process * World * list Event :=
  match ps !! i with
  | Some (Running (Do op k)) =>
      match handle op w with
      | (inl e, w') => (<[i := Finished (Raised e)]> ps, w', [mkEvent i op (registry w)])
      | (inr r, w') => (<[i := settle (k r)]> ps, w', [mkEvent i op (registry w)])
      end
  | _ => (ps, w, [])
  end.

Fixpoint interleave (schedule : list nat) (ps : list process) (w : World)
  : list process * World * list Event :=
  match schedule with
  | [] => (ps, w, [])
  | i :: later =>
      let '(ps1, w1, ev1) := step i ps w in
      let '(ps2, w2, ev2) := interleave later ps1 w1 in
      (ps2, w2, ev1 ++ ev2)
  end.

(** The name a call writes into the registry, for the two calls that
    establish uniqueness. *)
Definition claimed_name (op : Op) : option string :=
  match op with
  | app (Stellar.create_snapshot name _) => Some name
  | app (Stellar.rename_snapshot _ new_name) => Some new_name
  | _ => None
  end.

(** A write issued although the name it claims is taken by then. *)
Definition late_write (ev : Event) : bool :=
  match claimed_name (action ev) with
  | Some name => bool_decide (is_Some (Registry.get name (met ev)))
  | None => false
  end.

Definition processes_after (schedule : list nat) (ps : list process) (w : World)
  : list process := (interleave schedule ps w).1.1.

Definition world_after (schedule : list nat) (ps : list process) (w : World)
  : World := (interleave schedule ps w).1.2.

Definition events_of (schedule : list nat) (ps : list process) (w : World)
  : list Event := (interleave schedule ps w).2.

(** Check and write behave as one step: no write meets a name taken since
    it was checked. *)
Definition writes_in_time (schedule : list nat) (ps : list process) (w : World)
  : Prop :=
  forall ev, ev ∈ events_of schedule ps w -> late_write ev = false.

(** ** Conditions on the world *)

(** The configuration resolves and the connection stays up. *)
Definition up (w : World) : Prop :=
  (exists cfg, config w = inr cfg) /\ outage_in w = None.

(** The name a [snapshot] command settles on. *)
Definition chosen_name (name : option string) (w : World) : string :=
  if truthy name then given name else default_name w.

Definition names (reg : list Snapshot) : list string := snapshot_name <$> reg.

Definition locations (reg : list Snapshot) : list string := storage_location <$> reg.

(** The copies held for a record. *)
Definition data_of (s : Snapshot) (w : World) : option (gmap string rows) :=
  storage w !! storage_location s.

(** Two worlds that differ at most in what was printed. *)
Definition same_state (w w' : World) : Prop :=
  config w' = config w /\ registry w' = registry w /\ storage w' = storage w /\
  databases w' = databases w /\ workers w' = workers w /\ clock w' = clock w /\
  next_pid w' = next_pid w.

(** [replace] as the specification words it: [remove] of the existing
    snapshot followed by [create] under the same name. *)
Definition remove_then_create (s : Snapshot) : Prog (failure + Snapshot) :=
  call (Stellar.remove_snapshot s);;
  call (Stellar.create_snapshot (snapshot_name s) None).

(** The calls of one round of the polling loop of [restore]. *)
Definition polling (s : Snapshot) : list Op :=
  [stdout_write "."; stdout_flush; sleep 1; app (Stellar.refresh s)].

(** Nobody is copying for [s], which is not ready, and [s] is what the
    registry holds. *)
Definition stalled (s : Snapshot) (w : World) : Prop :=
  up w /\ workers w = [] /\ slaves_ready s = false /\
  Registry.get (snapshot_name s) (registry w) = Some s.

(** ** Sample worlds *)

Definition sample_config : Config :=
  mkConfig "shop" ["shop"; "audit"] "postgresql://localhost/"
           "postgresql://localhost/stellar_data".

Definition sample_databases : gmap string rows :=
  <["shop" := [1; 2; 3]]> (<["audit" := [7]]> ∅).

(** A project with no snapshot yet. *)
Definition fresh_world : World :=
  mkWorld (inr sample_config) "snap1" (fun _ => "a moment ago") [] ∅
          sample_databases [] 100 0 None [].

Definition v1_record (ready : bool) (handle : option nat) : Snapshot :=
  mkSnapshot "v1" 0 ready handle "stellar_v1".

Definition v1_copies : gmap string (gmap string rows) :=
  {[ "stellar_v1" := sample_databases ]}.

(** Snapshot v1 taken and ready. *)
Definition ready_world : World :=
  mkWorld (inr sample_config) "snap1" (fun _ => "a moment ago")
          [v1_record true None] v1_copies sample_databases [] 101 5 None [].

(** Snapshot v1 is being copied by process 100, which is killed before it
    gets any further. *)
Definition doomed_worker_world : World :=
  mkWorld (inr sample_config) "snap1" (fun _ => "a moment ago")
          [v1_record false (Some 100)] ∅ sample_databases
          [mkWorker 100 ["shop"; "audit"] None (Some 0)] 101 5 None [].

(** Snapshot v1 is being copied by process 100, which is healthy. *)
Definition copying_world : World :=
  mkWorld (inr sample_config) "snap1" (fun _ => "a moment ago")
          [v1_record false (Some 100)] ∅ sample_databases
          [mkWorker 100 ["shop"; "audit"] None None] 101 5 None [].

(** Snapshot v1 was left unfinished by a process that is gone. *)
Definition abandoned_world : World :=
  mkWorld (inr sample_config) "snap1" (fun _ => "a moment ago")
          [v1_record false (Some 100)] ∅ sample_databases [] 101 5 None [].

(** Ready snapshot v1, plus storage left behind by a lost snapshot and an
    unrelated object. *)
Definition littered_world : World :=
  set_storage (<["stellar_gone" := sample_databases]>
                 (<["other" := ∅]> v1_copies)) ready_world.

(** Ready snapshots v1 and v2. *)
Definition two_snapshots_world : World :=
  set_registry [v1_record true None; mkSnapshot "v2" 1 true None "stellar_v2"]
    (set_storage (<["stellar_v2" := sample_databases]> v1_copies) ready_world).

(** Two [snapshot v1] commands started together. *)
Definition racing_creators : list process :=
  [settle (command.snapshot (Some "v1")); settle (command.snapshot (Some "v1"))].

(** Two [rename] commands with the same target started together. *)
Definition racing_renamers : list process :=
  [settle (command.rename "v1" "x"); settle (command.rename "v2" "x")].

(** Configuration that does not resolve. *)
Definition broken_world (e : exn) : World :=
  mkWorld (inl e) "snap1" (fun _ => "a moment ago")
          [v1_record true None] v1_copies sample_databases [] 101 5 None [].

(** ** Commands against any application object *)

(** A meaning for the calls over any state: what the application object,
    the terminal and the clock do is left open. *)
Definition handler (S : Type) : Type :=
  forall op : Op, S -> (exn + ret op) * S.

Record Ran (S A : Type) : Type := mkRan {
  ended : outcome A;
  state : S;
  made : list Op }.

Arguments mkRan {S A} ended state made.
Arguments ended {S A} r.
Arguments state {S A} r.
Arguments made {S A} r.

Fixpoint run_with {S A : Type} (h : handler S) (p : Prog A) (st : S) : Ran S A :=
  match p with
  | Ret a => mkRan (Returned a) st []
  | Exit status => mkRan (Exited status) st []
  | Spin => mkRan Spinning st []
  | Do op k =>
      match h op st with
      | (inl e, st') => mkRan (Raised e) st' [op]
      | (inr r, st') =>
          let rest := run_with h (k r) st' in
          mkRan (ended rest) (state rest) (op :: made rest)
      end
  end.

(** Every call the program can make is allowed. *)
Fixpoint calls_only {A : Type} (allowed : Op -> bool) (p : Prog A) : Prop :=
  match p with
  | Do op k => allowed op = true /\ forall r, calls_only allowed (k r)
  | _ => True
  end.

(** Every [sys.exit] the program can reach has an accepted status. *)
Fixpoint exits_only {A : Type} (accepted : nat -> bool) (p : Prog A) : Prop :=
  match p with
  | Exit status => accepted status = true
  | Do op k => forall r, exits_only accepted (k r)
  | _ => True
  end.

(** The calls each command can make once the application object exists,
    read off its body. *)
Definition gc_calls (op : Op) : bool :=
  match op with
  | app (Stellar.delete_orphan_snapshots (Some after_delete)) => true
  | _ => false
  end.

Definition snapshot_calls (op : Op) : bool :=
  match op with
  | app Stellar.default_snapshot_name
  | app (Stellar.get_snapshot _)
  | app (Stellar.create_snapshot _ (Some before_copy))
  | click_echo _ => true
  | _ => false
  end.

Definition list_calls (op : Op) : bool :=
  match op with
  | app Stellar.get_snapshots | utcnow | naturaltime _ | click_echo _ => true
  | _ => false
  end.

Definition restore_calls (op : Op) : bool :=
  match op with
  | app Stellar.get_latest_snapshot
  | app (Stellar.get_snapshot _)
  | app (Stellar.is_copy_process_running _)
  | app (Stellar.inline_slave_copy _)
  | app (Stellar.restore _)
  | app (Stellar.refresh _)
  | load_config | stdout_write _ | stdout_flush | sleep 1 | click_echo _ => true
  | _ => false
  end.

Definition remove_calls (op : Op) : bool :=
  match op with
  | app (Stellar.get_snapshot _) | app (Stellar.remove_snapshot _)
  | click_echo _ => true
  | _ => false
  end.

Definition rename_calls (op : Op) : bool :=
  match op with
  | app (Stellar.get_snapshot _) | app (Stellar.rename_snapshot _ _)
  | click_echo _ => true
  | _ => false
  end.

Definition replace_calls (op : Op) : bool :=
  match op with
  | app (Stellar.get_snapshot _) | app (Stellar.remove_snapshot _)
  | app (Stellar.create_snapshot _ None) | click_echo _ => true
  | _ => false
  end.

Definition footprint (args : argv) : Op -> bool :=
  match args with
  | run_gc => gc_calls
  | run_snapshot _ => snapshot_calls
  | run_list => list_calls
  | run_restore _ => restore_calls
  | run_remove _ => remove_calls
  | run_rename _ _ => rename_calls
  | run_replace _ => replace_calls
  end.

(** Calls that change the registry, the storage or the tracked databases. *)
Definition mutating (op : Op) : bool :=
  match op with
  | app (Stellar.create_snapshot _ _)
  | app (Stellar.remove_snapshot _)
  | app (Stellar.rename_snapshot _ _)
  | app (Stellar.inline_slave_copy _)
  | app (Stellar.restore _)
  | app (Stellar.delete_orphan_snapshots _) => true
  | _ => false
  end.

(** The two stages of [restore] before the final call, as the blocks of
    its body: finding the snapshot, and making sure its copy is complete. *)
Definition restore_lookup (name : option string) : Prog Snapshot :=
  if negb (truthy name) then
    found ← call Stellar.get_latest_snapshot;
    match found with
    | Some s => Ret s
    | None =>
        cfg ← perform load_config;
        echo ("Couldn't find any snapshots for project " +:+ project_name cfg);;
        Exit 1
    end
  else
    found ← call (Stellar.get_snapshot (given name));
    match found with
    | Some s => Ret s
    | None =>
        echo ("Couldn't find snapshot with name " +:+ given name +:+
              "." +:+ newline +:+
              "You can list snapshots with 'stellar list'");;
        Exit 1
    end.

Definition restore_readiness (budget : nat) (snapshot : Snapshot) : Prog Snapshot :=
  if negb (slaves_ready snapshot) then
    running ← call (Stellar.is_copy_process_running snapshot);
    if (running : bool) then
      perform (stdout_write
        ("Waiting for background process(" +:+
         str_pid (worker_pid snapshot) +:+ ") to finish"));;
      perform stdout_flush;;
      snapshot' ← command.wait_for_slaves budget snapshot;
      echo "";;
      Ret snapshot'
    else
      echo "Background process missing, doing slow restore.";;
      call (Stellar.inline_slave_copy snapshot);;
      Ret snapshot
  else Ret snapshot.

(** Calls other than [app.restore]. *)
Definition not_restoring (op : Op) : bool :=
  match op with
  | app (Stellar.restore _) => false
  | _ => true
  end.

(** The line [list] prints for a snapshot. *)
Definition listed (w : World) (s : Snapshot) : string :=
  snapshot_name s +:+ ": " +:+
  humanize w (Z.of_nat (clock w) - Z.of_nat (created_at s)).

(** Calls [restore] makes when it is given no name, and when it is given
    the name [n]. *)
Definition restore_calls_unnamed (op : Op) : bool :=
  match op with
  | app (Stellar.get_snapshot _) => false
  | _ => restore_calls op
  end.

Definition restore_calls_named (n : string) (op : Op) : bool :=
  match op with
  | app Stellar.get_latest_snapshot | load_config => false
  | app (Stellar.get_snapshot n') => bool_decide (n' = n)
  | _ => restore_calls op
  end.

(** Calls [restore] makes once it has asked for its snapshot: no further
    lookup, and the configuration is read only when no name was given. *)
Definition after_lookup (name : option string) (op : Op) : bool :=
  match op with
  | app Stellar.get_latest_snapshot | app (Stellar.get_snapshot _) => false
  | load_config => negb (truthy name)
  | _ => restore_calls op
  end.

(** ** The [init] wizard *)

Module wizard.

(** What [init] gets from outside: SQLAlchemy's [create_engine] and
    [engine.connect], the two helpers of the operations module and its
    list of supported dialects.  An engine is known by its dialect name, a
    connection by the URL it was opened on.  [create_engine] fails with
    the message of an [ArgumentError], [connect] with that of an
    [OperationalError]. *)
Record Externals : Type := mkExternals {
  create_engine : string -> string + string;
  connect : string -> option string;
  list_of_databases : string -> list string;
  database_exists : string -> string -> bool;
  SUPPORTED_DIALECTS : list string }.

(** The terminal and the project file. *)
Record Console : Type := mkConsole {
  shown : list string;
  asked : list string;
  stellar_yaml : option string }.

Definition say (message : string) (c : Console) : Console :=
  mkConsole (shown c ++ [message +:+ newline]) (asked c) (stellar_yaml c).

Definition ask (text : string) (c : Console) : Console :=
  mkConsole (shown c) (asked c ++ [text]) (stellar_yaml c).

Definition write (content : string) (c : Console) : Console :=
  mkConsole (shown c) (asked c) (Some content).

Definition slash : Ascii.ascii := Ascii.ascii_of_nat 47.

(** [s.count('/')] *)
Fixpoint count_slashes (s : string) : nat :=
  match s with
  | EmptyString => 0
  | String c rest => (if Ascii.eqb c slash then 1 else 0) + count_slashes rest
  end.

(** [s.endswith('/')] *)
Fixpoint ends_with_slash (s : string) : bool :=
  match s with
  | EmptyString => false
  | String c EmptyString => Ascii.eqb c slash
  | String _ rest => ends_with_slash rest
  end.

(** [s.rsplit('/', 1)] when [s] has a slash: what is before the last
    slash, and what is after it. *)
Fixpoint rsplit_slash (s : string) : option (string * string) :=
  match s with
  | EmptyString => None
  | String c rest =>
      match rsplit_slash rest with
      | Some (before, last) => Some (String c before, last)
      | None => if Ascii.eqb c slash then Some (EmptyString, rest) else None
      end
  end.

(** [s.rsplit('/', 1)[0]] and [s.rsplit('/', 1)[-1]]; without a slash the
    list has the single element [s]. *)
Definition rsplit_first (s : string) : string :=
  match rsplit_slash s with
  | Some (before, _) => before
  | None => s
  end.

Definition rsplit_last (s : string) : string :=
  match rsplit_slash s with
  | Some (_, last) => last
  | None => s
  end.

(** [', '.join(items)] *)
Fixpoint join_commas (items : list string) : string :=
  match items with
  | [] => ""
  | [x] => x
  | x :: rest => x +:+ ", " +:+ join_commas rest
  end.

(** The text of [prompt_url], after [textwrap.dedent]. *)
Definition url_prompt : string :=
  "Please enter the url for your database." +:+ newline +:+
  newline +:+
  "For example:" +:+ newline +:+
  "PostgreSQL: postgresql://localhost:5432/" +:+ newline +:+
  "MySQL: mysql+pymysql://root@localhost/" +:+ newline.

Definition database_prompt : string :=
  "Please enter the name of the database (eg. projectdb)".

Definition project_prompt (db_name : string) : string :=
  "Please enter project name (used internally, eg. " +:+ db_name +:+ ")".

(** The text written to stellar.yaml. *)
Definition yaml_text (name db_name raw_url url : string) : string :=
  "project_name: " +:+ name +:+ newline +:+
  "tracked_databases: ['" +:+ db_name +:+ "']" +:+ newline +:+
  "url: '" +:+ raw_url +:+ "'" +:+ newline +:+
  "stellar_url: '" +:+ url +:+ "stellar_data'" +:+ newline.

(** [if url.count('/') == 2 and not url.endswith('/'): url = url + '/'] *)
Definition add_slash (url : string) : string :=
  if (count_slashes url =? 2)%nat && negb (ends_with_slash url)
  then url +:+ "/" else url.

(** [url.count('/') == 3 and url.endswith('/')]: the URL of a server, with
    no database in it. *)
Definition names_server (url : string) : bool :=
  (count_slashes url =? 3)%nat && ends_with_slash url.

(** One pass of the first loop for the URL [url]: the URL and the dialect
    of the engine when the connection opens, the console after the error
    messages otherwise. *)
Definition try_url (ext : Externals) (url : string) (c : Console)
  : string * string + Console :=
  let url := add_slash url in
  match create_engine ext url with
  | inl err => inr (say ("Error: " +:+ err) c)
  | inr dialect =>
      match connect ext url with
      | Some err =>
          inr (say "" (say ("Error message: " +:+ err)
                 (say ("Could not connect to database: " +:+ url) c)))
      | None => inl (url, dialect)
      end
  end.

(** The first loop once [url] is unset: every pass asks for a URL and
    takes the next line typed.  [click.prompt] asks again on an empty
    line; when the input ends the wizard is aborted ([None]). *)
Fixpoint ask_until_connected (ext : Externals) (typed : list string) (c : Console)
  : option (string * string * list string) * Console :=
  match typed with
  | [] => (None, ask url_prompt c)
  | line :: rest =>
      let c := ask url_prompt c in
      match line with
      | EmptyString => ask_until_connected ext rest c
      | _ =>
          match try_url ext line c with
          | inl (url, dialect) => (Some (url, dialect, rest), c)
          | inr c' => ask_until_connected ext rest c'
          end
      end
  end.

(** The first loop: a URL given on the command line is tried first. *)
Definition connect_loop (ext : Externals) (url : option string)
    (typed : list string) (c : Console)
  : option (string * string * list string) * Console :=
  if truthy url then
    match try_url ext (given url) c with
    | inl (url, dialect) => (Some (url, dialect, typed), c)
    | inr c' => ask_until_connected ext typed c'
    end
  else ask_until_connected ext typed c.

(** The databases offered: those of the server that are not the tool's own. *)
Definition offered (ext : Externals) (conn : string) : list string :=
  List.filter (fun db => negb (String.prefix "stellar_" db)) (list_of_databases ext conn).

(** The second loop.  [announce] tells whether a pass of the loop starts
    (the list is echoed) or [click.prompt] merely asks again after an
    empty line. *)
Fixpoint choose_database (ext : Externals) (conn : string) (typed : list string)
    (announce : bool) (c : Console) : option (string * list string) * Console :=
  let c := if announce
           then say ("You have the following databases: " +:+
                     join_commas (offered ext conn)) c
           else c in
  let c := ask database_prompt c in
  match typed with
  | [] => (None, c)
  | line :: rest =>
      match line with
      | EmptyString => choose_database ext conn rest false c
      | _ =>
          if database_exists ext conn line then (Some (line, rest), c)
          else choose_database ext conn rest true
                 (say "" (say ("Could not find database " +:+ line) c))
      end
  end.

(** [if project is None: project = click.prompt(..., default=db_name)] *)
Definition choose_project (project : option string) (db_name : string)
    (typed : list string) (c : Console) : option (string * list string) * Console :=
  match project with
  | Some name => (Some (name, typed), c)
  | None =>
      let c := ask (project_prompt db_name) c in
      match typed with
      | [] => (None, c)
      | EmptyString :: rest => (Some (db_name, rest), c)
      | line :: rest => (Some (line, rest), c)
      end
  end.

Inductive ending : Type := Finished | Aborted.

Definition init (ext : Externals) (url project : option string)
    (typed : list string) (c : Console) : ending * list string * Console :=
  match connect_loop ext url typed c with
  | (None, c) => (Aborted, [], c)
  | (Some (url, dialect, typed), c) =>
      let c :=
        if bool_decide (dialect ∈ SUPPORTED_DIALECTS ext) then c
        else say ("Supported dialects: " +:+ join_commas (SUPPORTED_DIALECTS ext))
               (say ("Your engine dialect " +:+ dialect +:+ " is not supported.") c) in
      let chosen :=
        if names_server url then
          match choose_database ext url typed true c with
          | (Some (db_name, typed), c) => (Some (db_name, url, typed), c)
          | (None, c) => (None, c)
          end
        else (Some (rsplit_last url, rsplit_first url +:+ "/", typed), c) in
      match chosen with
      | (None, c) => (Aborted, [], c)
      | (Some (db_name, url, typed), c) =>
          match choose_project project db_name typed c with
          | (None, c) => (Aborted, [], c)
          | (Some (name, typed), c) =>
              let raw_url :=
                if String.eqb dialect "postgresql" then url +:+ db_name else url in
              let c := write (yaml_text name db_name raw_url url) c in
              let c := say "" (say "Wrote stellar.yaml" c) in
              let c := if String.eqb dialect "mysql"
                       then say "Warning: MySQL support is still in beta." c
                       else c in
              (Finished, typed,
               say "Tip: You probably want to take a snapshot: stellar snapshot" c)
          end
      end
  end.

End wizard.

(** A server with two databases of its own and one of the tool's. *)
Definition sample_server : wizard.Externals :=
  wizard.mkExternals
    (fun url => if String.prefix "postgresql://" url then inr "postgresql"
                else if String.prefix "sqlite://" url then inr "sqlite"
                else inl ("Could not parse rfc1738 URL from string '" +:+ url +:+ "'"))
    (fun url => if String.prefix "postgresql://localhost" url then None
                else if String.prefix "sqlite://" url then None
                else Some "could not translate host name")
    (fun _ => ["shop"; "stellar_data"; "audit"])
    (fun _ db => bool_decide (db ∈ ["shop"; "stellar_data"; "audit"]))
    ["postgresql"; "mysql"].

Definition blank_console : wizard.Console := wizard.mkConsole [] [] None.

(** No [sys.exit] can follow a call that changes something. *)
Fixpoint exits_before_mutating {A : Type} (p : Prog A) : Prop :=
  match p with
  | Do op k =>
      if mutating op then forall r, exits_only (fun _ => false) (k r)
      else forall r, exits_before_mutating (k r)
  | _ => True
  end.

(** * Properties *)

(** ** Running programs *)

Lemma run_Do {A : Type} (op : Op) (k : ret op -> Prog A) (w : World) :
  run (Do op k) w =
  match handle op w with
  | (inl e, w') => mkRun (Raised e) w' [op]
  | (inr r, w') => after op (run (k r) w')
  end.
Proof. reflexivity. Qed.

Lemma dispatch_up (m : Stellar.method) (w : World) :
  up w -> dispatch m w = serve m w.
Proof.
  intros [[cfg Hc] Ho]. unfold dispatch, connect. rewrite Hc, Ho.
  by destruct (reaches_database m).
Qed.

Ltac open_command :=
  unfold command.get_app, echo, call, perform;
  cbn [mbind Prog_bind bind].

Ltac step_app Hup :=
  rewrite run_Do; cbn [handle]; rewrite (dispatch_up _ _ Hup); cbn [serve].

Ltac step_io := rewrite run_Do; cbn [handle].

(** Closes a goal from [H : x ∈ l] when [l] is an explicit list without [x]. *)
Ltac absent H :=
  repeat (apply elem_of_cons in H as [H|H]; [discriminate H|]);
  by apply elem_of_nil in H.

(** ** Registry lookups *)

Lemma named_true (name : string) (s : Snapshot) :
  Registry.named name s = true <-> snapshot_name s = name.
Proof. unfold Registry.named. apply bool_decide_eq_true. Qed.

Lemma named_false (name : string) (s : Snapshot) :
  Registry.named name s = false <-> snapshot_name s <> name.
Proof. unfold Registry.named. apply bool_decide_eq_false. Qed.

Lemma get_Some_name (name : string) (reg : list Snapshot) (s : Snapshot) :
  Registry.get name reg = Some s -> snapshot_name s = name /\ s ∈ reg.
Proof.
  unfold Registry.get. induction reg as [|x reg IH]; cbn; [done|].
  destruct (Registry.named name x) eqn:Hx.
  - intros [= ->]. split; [by apply named_true | left].
  - intros H. destruct (IH H). split; [done | by right].
Qed.

Lemma get_None_names (name : string) (reg : list Snapshot) :
  Registry.get name reg = None <-> name ∉ names reg.
Proof.
  unfold Registry.get, names. induction reg as [|x reg IH]; cbn.
  - split; [intros _; apply not_elem_of_nil | done].
  - destruct (Registry.named name x) eqn:Hx.
    + apply named_true in Hx. split; [done|].
      intros H. exfalso. apply H. rewrite Hx. left.
    + apply named_false in Hx. rewrite IH, not_elem_of_cons.
      split; [intros H; split; [congruence | done] | by intros [_ H]].
Qed.

Lemma count_get (name : string) (reg : list Snapshot) :
  length (List.filter (Registry.named name) reg) = 1 ->
  exists s, Registry.get name reg = Some s.
Proof.
  unfold Registry.get.
  induction reg as [|s reg IH]; cbn; [done|].
  destruct (Registry.named name s) eqn:Hs; [|exact IH].
  intros _. by exists s.
Qed.

Lemma get_app_new (name : string) (reg : list Snapshot) (s : Snapshot) :
  Registry.get name reg = None -> snapshot_name s = name ->
  Registry.get name (reg ++ [s]) = Some s.
Proof.
  unfold Registry.get. intros Hnone Hs.
  induction reg as [|x reg IH]; cbn in *.
  - by rewrite (proj2 (named_true name s) Hs).
  - destruct (Registry.named name x); [done | by apply IH].
Qed.

(** ** C3: creating under a name that is taken *)

Lemma snapshot_taken_run (w : World) (name : option string) (s : Snapshot) :
  up w ->
  Registry.get (chosen_name name w) (registry w) = Some s ->
  run (command.snapshot name) w =
  after (app Stellar.new)
    (mkRun (Exited 1)
       (echoed ("Snapshot with name " +:+ chosen_name name w +:+ " already exists") w)
       ((if truthy name then [] else [app Stellar.default_snapshot_name]) ++
        [app (Stellar.get_snapshot (chosen_name name w));
         click_echo ("Snapshot with name " +:+ chosen_name name w +:+
                     " already exists")])).
Proof.
  intros Hup Hget. unfold command.snapshot. open_command. step_app Hup.
  f_equal. unfold chosen_name in *.
  destruct (truthy name); cbn [mbind Prog_bind bind].
  - step_app Hup. rewrite Hget. open_command. step_io. reflexivity.
  - step_app Hup. step_app Hup. rewrite Hget. open_command. step_io.
    reflexivity.
Qed.

(** C3.  When exactly one record carries the name a [snapshot] command
    settles on, the command reports the collision (the "already exists"
    line and exit status 1), never calls [create_snapshot], and leaves the
    registry with exactly one record of that name. *)
Theorem snapshot_name_collision (w : World) (name : option string) :
  up w ->
  length (List.filter (Registry.named (chosen_name name w)) (registry w)) = 1 ->
  let r := run (command.snapshot name) w in
  result r = Exited 1 /\
  final r = echoed ("Snapshot with name " +:+ chosen_name name w +:+
                    " already exists") w /\
  (forall n h, app (Stellar.create_snapshot n h) ∉ calls r) /\
  length (List.filter (Registry.named (chosen_name name w)) (registry (final r))) = 1.
Proof.
  intros Hup Hone. cbn zeta.
  destruct (count_get _ _ Hone) as [s Hget].
  rewrite (snapshot_taken_run w name s Hup Hget).
  cbn [after result final calls]. split_and!; try done.
  intros n h Hin. destruct (truthy name); cbn in Hin; absent Hin.
Qed.

Lemma snapshot_name_collision_witness :
  let r := run (command.snapshot (Some "v1")) ready_world in
  result r = Exited 1 /\
  stdout (final r) = ["Snapshot with name v1 already exists" +:+ newline] /\
  registry (final r) = [v1_record true None].
Proof.
  destruct (snapshot_name_collision ready_world (Some "v1")) as (H1 & H2 & _ & _).
  - split; [by eexists | done].
  - reflexivity.
  - cbn zeta. rewrite H1, H2. split_and!; reflexivity.
Defined.

(** ** C7: a fresh name *)

(** C7.  For a non-empty name without a record, [snapshot name] succeeds
    and an immediate [get_snapshot name] yields a record that is not
    ready and whose storage location is [location_of name]. *)
Theorem snapshot_then_get (w : World) (name : string) :
  up w -> name <> "" ->
  Registry.get name (registry w) = None ->
  let r := run (command.snapshot (Some name);; call (Stellar.get_snapshot name)) w in
  exists s, result r = Returned (Some s) /\
            snapshot_name s = name /\
            slaves_ready s = false /\
            storage_location s = location_of name.
Proof.
  intros Hup Hname Hget. cbn zeta.
  unfold command.snapshot. open_command. step_app Hup.
  destruct name as [|a name]; [done|]. cbn [truthy given default mbind Prog_bind bind id].
  step_app Hup. rewrite Hget. open_command.
  rewrite run_Do; cbn [handle]; rewrite (dispatch_up _ _ Hup); cbn [serve].
  unfold Engine.create, Registry.insert. cbn [snapshot_name]. rewrite Hget.
  set (s := mkSnapshot _ _ _ _ _).
  rewrite run_Do; cbn [handle]. rewrite dispatch_up by (destruct Hup; split; done).
  cbn [serve registry set_next_pid set_workers set_registry].
  rewrite (get_app_new _ _ s Hget eq_refl).
  exists s. done.
Qed.

Lemma snapshot_then_get_witness :
  exists s,
    result (run (command.snapshot (Some "v2");; call (Stellar.get_snapshot "v2"))
                ready_world) = Returned (Some s) /\
    snapshot_name s = "v2" /\ slaves_ready s = false /\
    storage_location s = "stellar_v2".
Proof.
  apply (snapshot_then_get ready_world "v2").
  - split; [by eexists | done].
  - discriminate.
  - reflexivity.
Defined.

(** ** C8: restoring what does not exist *)

(** C8.  With a resolved configuration and a live connection: [restore]
    without a name on an empty registry finds no latest snapshot, and
    [restore name] without a record of that name finds none; either way
    the command prints its message, exits with status 1, never calls
    [restore] or [inline_slave_copy], and leaves every tracked database,
    the registry and the storage as they were. *)
Theorem restore_not_found (w : World) (budget : nat) (name : option string)
    (cfg : Config) :
  config w = inr cfg -> outage_in w = None ->
  (if truthy name then Registry.get (given name) (registry w) = None
   else registry w = []) ->
  let r := run (command.restore budget name) w in
  (if truthy name then True else Registry.latest (registry w) = None) /\
  result r = Exited 1 /\
  final r = echoed (if truthy name
                    then "Couldn't find snapshot with name " +:+ given name +:+
                         "." +:+ newline +:+
                         "You can list snapshots with 'stellar list'"
                    else "Couldn't find any snapshots for project " +:+
                         project_name cfg) w /\
  databases (final r) = databases w /\
  registry (final r) = registry w /\
  storage (final r) = storage w /\
  (forall s, app (Stellar.restore s) ∉ calls r) /\
  (forall s, app (Stellar.inline_slave_copy s) ∉ calls r).
Proof.
  intros Hc Ho Hnone. cbn zeta.
  assert (Hup : up w) by (split; [by exists cfg | done]).
  unfold command.restore. open_command. step_app Hup.
  destruct (truthy name); cbn [negb mbind Prog_bind bind].
  - step_app Hup. rewrite Hnone. open_command. step_io.
    cbn [after run result final calls]. split_and!; try done.
    all: intros s Hin; absent Hin.
  - step_app Hup. rewrite Hnone. cbn [Registry.latest]. open_command.
    step_io. rewrite Hc. step_io.
    cbn [after run result final calls]. split_and!; try done.
    all: intros s Hin; absent Hin.
Qed.

Lemma restore_not_found_witness :
  result (run (command.restore 3 None) fresh_world) = Exited 1 /\
  databases (final (run (command.restore 3 None) fresh_world)) = sample_databases /\
  result (run (command.restore 3 (Some "v9")) ready_world) = Exited 1 /\
  databases (final (run (command.restore 3 (Some "v9")) ready_world)) = sample_databases.
Proof.
  destruct (restore_not_found fresh_world 3 None sample_config)
    as (_ & H1 & _ & H2 & _); [reflexivity..|].
  destruct (restore_not_found ready_world 3 (Some "v9") sample_config)
    as (_ & H3 & _ & H4 & _); [reflexivity..|].
  cbn zeta in *. by rewrite H1, H2, H3, H4.
Defined.

(** ** C10: the default snapshot name *)

Lemma dispatch_new (w w' : World) (r : unit) :
  dispatch Stellar.new w = (inr r, w') ->
  config w' = config w /\ default_name w' = default_name w /\
  registry w' = registry w /\ exists cfg, config w = inr cfg.
Proof.
  unfold dispatch, connect. destruct (config w) as [e|cfg] eqn:Hc; [done|].
  cbn. destruct (outage_in w) as [[|n]|]; cbn; intros [= ?]; subst w'; cbn; eauto.
Qed.

(** C10.  [snapshot] without a name, or with the empty name, uses the
    default snapshot name of the application object in place of the
    missing one.  It ends with the same result and in the same world as
    [snapshot] given that name.  With the configuration resolved and the
    connection up it reads [default_snapshot_name], looks that name up
    and, when the name is free, creates the snapshot under it and returns
    normally, the registry gaining one record of that name; when the name
    is taken it reports the collision under that name.  And whatever the
    application object does: the name it returns as default is the one
    looked up, the only one a snapshot is created under, and the command
    calls [sys.exit] only after that lookup found a record, never because
    the argument was missing. *)
Theorem snapshot_default_name (w : World) (name : option string) :
  truthy name = false ->
  let r := run (command.snapshot name) w in
  let d := default_name w in
  let explicit := run (command.snapshot (Some d)) w in
  (result r = result explicit /\ final r = final explicit) /\
  (up w ->
   match Registry.get d (registry w) with
   | None =>
       result r = Returned tt /\
       calls r = [app Stellar.new; app Stellar.default_snapshot_name;
                  app (Stellar.get_snapshot d);
                  app (Stellar.create_snapshot d (Some before_copy))] /\
       exists s, snapshot_name s = d /\
                 registry (final r) = registry w ++ [s] /\
                 Registry.get d (registry (final r)) = Some s
   | Some _ =>
       result r = Exited 1 /\
       calls r = [app Stellar.new; app Stellar.default_snapshot_name;
                  app (Stellar.get_snapshot d);
                  click_echo ("Snapshot with name " +:+ d +:+ " already exists")] /\
       final r = echoed ("Snapshot with name " +:+ d +:+ " already exists") w
   end) /\
  (forall (S : Type) (h : handler S) (st st1 st2 : S) (n : string),
     h (app Stellar.new) st = (inr tt, st1) ->
     h (app Stellar.default_snapshot_name) st1 = (inr n, st2) ->
     let g := run_with h (command.snapshot name) st in
     take 3 (made g) = [app Stellar.new; app Stellar.default_snapshot_name;
                        app (Stellar.get_snapshot n)] /\
     (forall n' hk, app (Stellar.create_snapshot n' hk) ∈ made g ->
                    n' = n /\ hk = Some before_copy) /\
     (forall status, ended g = Exited status ->
        exists s st3, h (app (Stellar.get_snapshot n)) st2 = (inr (Some s), st3)) /\
     (forall st3, h (app (Stellar.get_snapshot n)) st2 = (inr None, st3) ->
        app (Stellar.create_snapshot n (Some before_copy)) ∈ made g /\
        forall status, ended g <> Exited status)).
Proof.
  intros Hname. cbn zeta. split; [|split].
  - unfold command.snapshot. open_command. rewrite Hname.
    rewrite !run_Do. cbn [handle].
    destruct (dispatch Stellar.new w) as [[e|[]] w'] eqn:Hnew; [done|].
    apply dispatch_new in Hnew as (Hc & Hd & _ & cfg & Hcfg).
    assert (Hread : dispatch Stellar.default_snapshot_name w' = (inr (default_name w), w')).
    { unfold dispatch. rewrite Hc, Hcfg. cbn. by rewrite Hd. }
    destruct (default_name w) as [|a d] eqn:Hdef;
      cbn [truthy given default mbind Prog_bind bind id]; rewrite !run_Do; cbn [handle];
      rewrite ?Hread; cbn [after result final]; done.
  - intros Hup. unfold command.snapshot. open_command. rewrite Hname.
    step_app Hup. cbn [mbind Prog_bind bind]. step_app Hup. step_app Hup.
    destruct (Registry.get (default_name w) (registry w)) as [s|] eqn:Hget.
    + open_command. step_io. done.
    + open_command.
      rewrite run_Do; cbn [handle]; rewrite (dispatch_up _ _ Hup); cbn [serve].
      unfold Engine.create, Registry.insert. cbn [snapshot_name]. rewrite Hget.
      set (s := mkSnapshot _ _ _ _ _).
      cbn [after run result final calls registry set_next_pid set_workers set_registry].
      split_and!; [done..|].
      exists s. split_and!; [done..|]. by apply get_app_new.
  - intros S h st st1 st2 n Hnew Hdef. cbn zeta.
    unfold command.snapshot, command.get_app, mbind, Prog_bind, echo, call, perform.
    rewrite Hname. cbn [bind].
    cbn [run_with]. rewrite Hnew, Hdef. cbn [ended made].
    destruct (h (app (Stellar.get_snapshot n)) st2) as [[e|[s|]] st3]; cbn [ended made bind run_with].
    + split_and!; [done| |done|done]. intros n' hk Hin. absent Hin.
    + match goal with
      | |- context [h (click_echo ?m) st3] =>
          destruct (h (click_echo m) st3) as [[e|[]] st4]; cbn [ended made]
      end.
      * split_and!; [done| |by eauto|done]. intros n' hk Hin. absent Hin.
      * split_and!; [done| |by eauto|done]. intros n' hk Hin. absent Hin.
    + destruct (h (app (Stellar.create_snapshot n (Some before_copy))) st3)
        as [[e|created] st4]; cbn [ended made].
      * split_and!; [done| |done|].
        -- intros n' hk Hin. do 3 (apply elem_of_cons in Hin as [Hin|Hin]; [done|]).
           apply list_elem_of_singleton in Hin. by injection Hin as -> ->.
        -- intros _ _. split; [|done]. do 3 right. left.
      * split_and!; [done| |done|].
        -- intros n' hk Hin. do 3 (apply elem_of_cons in Hin as [Hin|Hin]; [done|]).
           apply list_elem_of_singleton in Hin. by injection Hin as -> ->.
        -- intros _ _. split; [|done]. do 3 right. left.
Qed.

Lemma snapshot_default_name_witness :
  let r := run (command.snapshot None) fresh_world in
  result r = Returned tt /\
  app Stellar.default_snapshot_name ∈ calls r /\
  exists s, snapshot_name s = "snap1" /\ registry (final r) = [s].
Proof.
  destruct (snapshot_default_name fresh_world None eq_refl) as (_ & Hw & _).
  specialize (Hw (conj (ex_intro _ sample_config eq_refl) eq_refl)).
  change (Registry.get (default_name fresh_world) (registry fresh_world))
    with (@None Snapshot) in Hw.
  destruct Hw as (Hres & Hcalls & s & Hs & Hreg & _).
  cbn zeta. rewrite Hres, Hcalls. split_and!; [done|by right; left|].
  exists s. split; [exact Hs | exact Hreg].
Defined.

(** ** C4: renaming *)

Lemma get_relabel_old (old new location : string) (reg : list Snapshot) :
  old <> new ->
  Registry.get old (Registry.relabel old new location <$> reg) = None.
Proof.
  intros Hne. unfold Registry.get.
  induction reg as [|x reg IH]; cbn; [done|].
  destruct (Registry.named old x) eqn:Hx.
  - assert (Hrel : Registry.relabel old new location x =
                   mkSnapshot new (created_at x) (slaves_ready x) (worker_pid x) location)
      by (unfold Registry.relabel; by rewrite Hx).
    rewrite Hrel.
    replace (Registry.named old (mkSnapshot new _ _ _ location)) with false; [done|].
    symmetry. apply named_false. cbn. congruence.
  - assert (Hrel : Registry.relabel old new location x = x)
      by (unfold Registry.relabel; by rewrite Hx).
    by rewrite Hrel, Hx.
Qed.

Lemma get_relabel_new (old new location : string) (reg : list Snapshot) (s : Snapshot) :
  Registry.get old reg = Some s ->
  Registry.get new reg = None ->
  Registry.get new (Registry.relabel old new location <$> reg) =
  Some (mkSnapshot new (created_at s) (slaves_ready s) (worker_pid s) location).
Proof.
  unfold Registry.get.
  induction reg as [|x reg IH]; cbn; [done|].
  destruct (Registry.named old x) eqn:Hold.
  - intros [= ->] _.
    assert (Hrel : Registry.relabel old new location s =
                   mkSnapshot new (created_at s) (slaves_ready s) (worker_pid s) location)
      by (unfold Registry.relabel; by rewrite Hold).
    rewrite Hrel.
    replace (Registry.named new (mkSnapshot new _ _ _ location)) with true;
      [reflexivity|].
    symmetry. by apply named_true.
  - assert (Hrel : Registry.relabel old new location x = x)
      by (unfold Registry.relabel; by rewrite Hold).
    rewrite Hrel.
    intros Hs. destruct (Registry.named new x) eqn:Hnew; [done|]. by apply IH.
Qed.

Lemma move_storage_lookup (from to : string) (st : gmap string (gmap string rows)) :
  Engine.move_storage from to st !! to = st !! from.
Proof.
  unfold Engine.move_storage. destruct (st !! from) as [copies|] eqn:Hfrom.
  - by rewrite lookup_insert_eq.
  - by rewrite lookup_delete_eq.
Qed.

(** C4.  With a resolved configuration and a live connection,
    [rename old new] reports "not found" (exit 1) when no record is named
    [old], and "already exists" (exit 1) when [old] has a record and so has
    [new]; both failures change nothing but the terminal.  Otherwise it
    succeeds: [old] no longer resolves, and [new] resolves to a record with
    the creation time, readiness and copies the record of [old] had. *)
Theorem rename_outcomes (w : World) (old_name new_name : string) :
  up w ->
  let r := run (command.rename old_name new_name) w in
  match Registry.get old_name (registry w), Registry.get new_name (registry w) with
  | None, _ =>
      result r = Exited 1 /\
      final r = echoed ("Couldn't find snapshot " +:+ old_name) w /\
      registry (final r) = registry w /\ storage (final r) = storage w
  | Some _, Some _ =>
      result r = Exited 1 /\
      final r = echoed ("Snapshot with name " +:+ new_name +:+ " already exists") w /\
      registry (final r) = registry w /\ storage (final r) = storage w
  | Some s, None =>
      result r = Returned tt /\
      Registry.get old_name (registry (final r)) = None /\
      exists s',
        Registry.get new_name (registry (final r)) = Some s' /\
        created_at s' = created_at s /\
        slaves_ready s' = slaves_ready s /\
        data_of s' (final r) = data_of s w
  end.
Proof.
  intros Hup. cbn zeta.
  unfold command.rename. open_command. step_app Hup. step_app Hup.
  destruct (Registry.get old_name (registry w)) as [s|] eqn:Hold.
  - step_app Hup.
    destruct (Registry.get new_name (registry w)) as [t|] eqn:Hnew.
    + open_command. step_io. cbn [after run result final]. done.
    + apply get_Some_name in Hold as Hs. destruct Hs as [Hs _].
      assert (Hne : old_name <> new_name) by congruence.
      step_app Hup. unfold Engine.rename, Registry.rename.
      rewrite Hs, Hold, Hnew. cbn [fmap option_fmap option_map default].
      step_io. cbn [after run result final].
      cbn [echoed print set_storage set_registry registry storage].
      split_and!; [done | by apply get_relabel_old |].
      eexists. split; [by apply get_relabel_new|].
      cbn [created_at slaves_ready]. split_and!; try done.
      unfold data_of. cbn [storage storage_location].
      apply move_storage_lookup.
  - open_command. step_io. cbn [after run result final]. done.
Qed.

Lemma rename_outcomes_witness :
  let r := run (command.rename "v1" "v2") ready_world in
  result r = Returned tt /\
  Registry.get "v1" (registry (final r)) = None /\
  exists s',
    Registry.get "v2" (registry (final r)) = Some s' /\
    created_at s' = 0 /\ slaves_ready s' = true /\
    data_of s' (final r) = Some sample_databases.
Proof.
  apply (rename_outcomes ready_world "v1" "v2").
  split; [by eexists | done].
Defined.

(** ** C5: replacing *)

Lemma up_same (w w' : World) :
  config w' = config w -> outage_in w' = outage_in w -> up w -> up w'.
Proof. intros Hc Ho [H1 H2]. unfold up. by rewrite Hc, Ho. Qed.

Lemma remove_keeps (s : Snapshot) (w : World) :
  config (Engine.remove s w) = config w /\
  outage_in (Engine.remove s w) = outage_in w /\
  stdout (Engine.remove s w) = stdout w.
Proof. unfold Engine.remove. by destruct (Registry.delete _ _). Qed.

Lemma get_filter_out (name : string) (reg : list Snapshot) :
  Registry.get name (List.filter (fun s => negb (Registry.named name s)) reg) = None.
Proof.
  unfold Registry.get. induction reg as [|x reg IH]; cbn; [done|].
  destruct (Registry.named name x) eqn:Hx; cbn; [done|]. by rewrite Hx.
Qed.

Lemma remove_forgets (s : Snapshot) (w : World) :
  Registry.get (snapshot_name s) (registry (Engine.remove s w)) = None /\
  storage (Engine.remove s w) !! storage_location s = None.
Proof.
  unfold Engine.remove, Registry.delete. cbn [registry set_storage].
  destruct (Registry.get (snapshot_name s) (registry w)) eqn:Hget;
    cbn [registry storage set_registry set_storage].
  - split; [apply get_filter_out | apply lookup_delete_eq].
  - split; [done | apply lookup_delete_eq].
Qed.

Lemma dispatch_counting (m : Stellar.method) (w : World) (cfg : Config) (n : nat) :
  config w = inr cfg -> outage_in w = Some (S n) -> reaches_database m = true ->
  dispatch m w = serve m (set_outage_in (Some n) w).
Proof. intros Hc Ho Hm. unfold dispatch, connect. by rewrite Hc, Ho, Hm. Qed.

Lemma dispatch_lost (m : Stellar.method) (w : World) (cfg : Config) :
  config w = inr cfg -> outage_in w = Some 0 -> reaches_database m = true ->
  dispatch m w = (inl OperationalError, w).
Proof. intros Hc Ho Hm. unfold dispatch, connect. by rewrite Hc, Ho, Hm. Qed.

(** C5.  With a resolved configuration and a record [s] under [name]:
    if the connection stays up, [replace name] succeeds and leaves the
    world that [remove s] followed by [create name] leaves, plus its
    closing line; if the connection is lost right after the removal, the
    command ends in the error raised by [create_snapshot], nothing is
    rolled back, and neither the name nor its storage exists any more. *)
Theorem replace_is_remove_then_create (w : World) (name : string) (s : Snapshot)
    (cfg : Config) :
  config w = inr cfg ->
  Registry.get name (registry w) = Some s ->
  (outage_in w = None ->
   result (run (command.replace name) w) = Returned tt /\
   final (run (command.replace name) w) =
   echoed ("Replaced snapshot " +:+ name) (final (run (remove_then_create s) w))) /\
  (outage_in w = Some 3 ->
   let r := run (command.replace name) w in
   result r = Raised OperationalError /\
   last (calls r) = Some (app (Stellar.create_snapshot name None)) /\
   app (Stellar.remove_snapshot s) ∈ calls r /\
   Registry.get name (registry (final r)) = None /\
   data_of s (final r) = None /\
   stdout (final r) = stdout w).
Proof.
  intros Hc Hget. apply get_Some_name in Hget as Hs. destruct Hs as [Hs _].
  split.
  - intros Ho. assert (Hup : up w) by (split; [by exists cfg | done]).
    assert (Hup' : up (Engine.remove s w)).
    { destruct (remove_keeps s w) as (? & ? & _). by apply (up_same w). }
    assert (Hspec : final (run (remove_then_create s) w) =
                    (Engine.create name None (Engine.remove s w)).2).
    { unfold remove_then_create. open_command. step_app Hup. rewrite Hs.
      step_app Hup'. by destruct (Engine.create name None (Engine.remove s w)). }
    rewrite Hspec.
    unfold command.replace. open_command.
    step_app Hup. step_app Hup. rewrite Hget. open_command.
    step_app Hup. step_app Hup'.
    destruct (Engine.create name None (Engine.remove s w)) as [made w'].
    step_io. cbn [after run result final]. done.
  - intros Ho.
    set (w3 := set_outage_in (Some 0) (set_outage_in (Some 1) (set_outage_in (Some 2) w))).
    assert (Hrun : run (command.replace name) w =
                   mkRun (Raised OperationalError) (Engine.remove s w3)
                     [app Stellar.new; app (Stellar.get_snapshot name);
                      app (Stellar.remove_snapshot s);
                      app (Stellar.create_snapshot name None)]).
    { unfold command.replace. open_command.
      rewrite run_Do. cbn [handle].
      rewrite (dispatch_counting _ w cfg 2) by done. cbn [serve].
      rewrite run_Do. cbn [handle].
      rewrite (dispatch_counting _ _ cfg 1) by done. cbn [serve].
      cbn [registry set_outage_in]. rewrite Hget. open_command.
      rewrite run_Do. cbn [handle].
      rewrite (dispatch_counting _ _ cfg 0) by done. cbn [serve].
      rewrite run_Do. cbn [handle].
      destruct (remove_keeps s w3) as (Hc' & Ho' & _).
      rewrite (dispatch_lost _ _ cfg);
        [done | by etrans; [apply Hc'|] | by etrans; [apply Ho'|] | done]. }
    cbn zeta. rewrite Hrun. cbn [result final calls].
    destruct (remove_keeps s w3) as (_ & _ & Hout).
    destruct (remove_forgets s w3) as (Hreg & Hsto).
    rewrite Hs in Hreg. split_and!; try done.
    do 2 right. left.
Qed.

Lemma replace_is_remove_then_create_witness :
  (result (run (command.replace "v1") ready_world) = Returned tt /\
   final (run (command.replace "v1") ready_world) =
   echoed "Replaced snapshot v1"
     (final (run (remove_then_create (v1_record true None)) ready_world))) /\
  (let r := run (command.replace "v1") (set_outage_in (Some 3) ready_world) in
   result r = Raised OperationalError /\
   Registry.get "v1" (registry (final r)) = None).
Proof.
  split.
  - apply (replace_is_remove_then_create ready_world "v1" (v1_record true None)
             sample_config); reflexivity.
  - destruct (replace_is_remove_then_create (set_outage_in (Some 3) ready_world)
                "v1" (v1_record true None) sample_config) as [_ H];
      [reflexivity..|].
    destruct H as (H1 & _ & _ & H2 & _); [reflexivity|]. by split.
Defined.

(** ** C6: reclaiming orphaned storage *)

Lemma observe_keeps (h : option hook) (location : string) (w : World) :
  config (observe h location w) = config w /\
  outage_in (observe h location w) = outage_in w /\
  registry (observe h location w) = registry w /\
  storage (observe h location w) = storage w /\
  databases (observe h location w) = databases w.
Proof. unfold observe. by destruct h. Qed.

Lemma sweep_keeps (h : option hook) (doomed : list string) (w : World) :
  config (foldl (Engine.sweep h) w doomed) = config w /\
  outage_in (foldl (Engine.sweep h) w doomed) = outage_in w /\
  registry (foldl (Engine.sweep h) w doomed) = registry w /\
  databases (foldl (Engine.sweep h) w doomed) = databases w.
Proof.
  revert w. induction doomed as [|x doomed IH]; intros w; cbn [foldl]; [done|].
  destruct (IH (Engine.sweep h w x)) as (-> & -> & -> & ->).
  unfold Engine.sweep.
  by destruct (observe_keeps h x (set_storage (delete x (storage w)) w))
    as (-> & -> & -> & _ & ->).
Qed.

Lemma sweep_storage (h : option hook) (doomed : list string) (w : World)
    (location : string) :
  storage (foldl (Engine.sweep h) w doomed) !! location =
  if decide (location ∈ doomed) then None else storage w !! location.
Proof.
  revert w. induction doomed as [|x doomed IH]; intros w; cbn [foldl].
  - rewrite decide_False; [done | apply not_elem_of_nil].
  - rewrite IH. unfold Engine.sweep.
    destruct (observe_keeps h x (set_storage (delete x (storage w)) w))
      as (_ & _ & _ & -> & _). cbn [storage set_storage].
    destruct (decide (location ∈ doomed)) as [Hin|Hout].
    + rewrite decide_True; [done | by right].
    + destruct (decide (location = x)) as [->|Hne].
      * rewrite decide_True by left. apply lookup_delete_eq.
      * rewrite decide_False by (rewrite not_elem_of_cons; done).
        by apply lookup_delete_ne.
Qed.

Lemma sweep_stdout (f : hook) (doomed : list string) (w : World) :
  stdout (foldl (Engine.sweep (Some f)) w doomed) =
  stdout w ++ ((fun location => hook_line f location +:+ newline) <$> doomed).
Proof.
  revert w. induction doomed as [|x doomed IH]; intros w; cbn [foldl fmap list_fmap].
  - by rewrite app_nil_r.
  - rewrite IH. cbn [Engine.sweep observe echoed print stdout set_storage].
    by rewrite <- app_assoc.
Qed.

Lemma orphans_spec (w : World) (location : string) :
  location ∈ Engine.orphans w <->
  is_Some (storage w !! location) /\ is_snapshot_storage location = true /\
  location ∉ locations (registry w).
Proof.
  unfold Engine.orphans, Engine.referenced, locations.
  rewrite list_elem_of_In, filter_In, <- list_elem_of_In.
  rewrite andb_true_iff, negb_true_iff, bool_decide_eq_false.
  rewrite list_elem_of_fmap.
  split.
  - intros [([k v] & -> & Hkv) [H1 H2]]. apply elem_of_map_to_list in Hkv.
    cbn in *. eauto.
  - intros ([v Hv] & H1 & H2). split; [|done].
    exists (location, v). split; [done | by apply elem_of_map_to_list].
Qed.

Lemma orphans_NoDup (w : World) : NoDup (Engine.orphans w).
Proof.
  unfold Engine.orphans. apply NoDup_ListNoDup, List.NoDup_filter, NoDup_ListNoDup.
  apply NoDup_fst_map_to_list.
Qed.

(** C6.  With a resolved configuration and a live connection, [gc] removes
    from the storage exactly the objects that follow the naming convention
    and belong to no record: storage of a record, ready or not, and
    objects outside the convention stay; every other object of the
    convention goes; and the callback prints one line for each object
    removed, each object once. *)
Theorem gc_deletes_exactly_orphans (w : World) :
  up w ->
  let r := run command.gc w in
  result r = Returned tt /\
  registry (final r) = registry w /\
  (forall s, s ∈ registry w ->
     storage (final r) !! storage_location s = storage w !! storage_location s) /\
  (forall location, is_snapshot_storage location = false ->
     storage (final r) !! location = storage w !! location) /\
  (forall location, is_snapshot_storage location = true ->
     location ∉ locations (registry w) ->
     storage (final r) !! location = None) /\
  exists deleted,
    NoDup deleted /\
    (forall location, location ∈ deleted <->
       is_Some (storage w !! location) /\ is_snapshot_storage location = true /\
       location ∉ locations (registry w)) /\
    stdout (final r) =
    stdout w ++ ((fun location => ("Deleted table " +:+ location) +:+ newline) <$> deleted).
Proof.
  intros Hup. cbn zeta. unfold command.gc. open_command.
  step_app Hup. step_app Hup. unfold Engine.gc.
  cbn [after run result final].
  split_and!.
  - done.
  - by destruct (sweep_keeps (Some after_delete) (Engine.orphans w) w) as (_ & _ & -> & _).
  - intros s Hs. rewrite sweep_storage. rewrite decide_False; [done|].
    rewrite orphans_spec. intros (_ & _ & Hout). apply Hout.
    unfold locations. apply list_elem_of_fmap. by exists s.
  - intros location Hconv. rewrite sweep_storage. rewrite decide_False; [done|].
    rewrite orphans_spec. intros (_ & Hin & _). congruence.
  - intros location Hconv Hfree. rewrite sweep_storage.
    destruct (decide (location ∈ Engine.orphans w)) as [Hin|Hout]; [done|].
    destruct (storage w !! location) as [copies|] eqn:Hl; [|done].
    exfalso. apply Hout. apply orphans_spec. rewrite Hl. eauto.
  - exists (Engine.orphans w). split_and!.
    + apply orphans_NoDup.
    + apply orphans_spec.
    + apply (sweep_stdout after_delete).
Qed.

Lemma gc_deletes_exactly_orphans_witness :
  let r := run command.gc littered_world in
  result r = Returned tt /\
  storage (final r) !! "stellar_v1" = Some sample_databases /\
  storage (final r) !! "other" = Some ∅ /\
  storage (final r) !! "stellar_gone" = None.
Proof.
  destruct (gc_deletes_exactly_orphans littered_world)
    as (H1 & _ & H2 & H3 & H4 & _).
  - split; [by eexists | done].
  - cbn zeta in *. split_and!.
    + exact H1.
    + refine (eq_trans (H2 (v1_record true None) _) _); [left | reflexivity].
    + refine (eq_trans (H3 "other" _) _); reflexivity.
    + apply (H4 "stellar_gone"); [reflexivity|].
      intros Hin. by apply list_elem_of_singleton in Hin.
Defined.

(** ** C9: failures while the configuration is resolved *)

Lemma stellar_unconfigured (budget : nat) (args : argv) (w : World) (e : exn) :
  config w = inl e ->
  run (stellar budget args) w = mkRun (Raised e) w [app Stellar.new].
Proof.
  intros Hc.
  destruct args; cbn [stellar];
    [unfold command.gc | unfold command.snapshot | unfold command.list
    | unfold command.restore | unfold command.remove | unfold command.rename
    | unfold command.replace];
    open_command; rewrite run_Do; cbn [handle]; unfold dispatch; by rewrite Hc.
Qed.

Lemma same_state_refl (w : World) : same_state w w.
Proof. by repeat split. Qed.

Lemma same_state_echoed (w w' : World) (message : string) :
  same_state w w' -> same_state w (echoed message w').
Proof. unfold same_state. cbn. tauto. Qed.

Ltac settle_unconfigured :=
  first
    [ repeat apply same_state_echoed; apply same_state_refl
    | let m := fresh "m" in
      let Hin := fresh "Hin" in
      intros m Hin; apply elem_of_cons in Hin as [[= <-]|Hin]; [done|];
      absent Hin
    | cbn [echoed print stdout]; by rewrite <- ?app_assoc
    | eexists; split;
      [| cbn [echoed print stdout]; rewrite <- ?app_assoc; reflexivity]; done ].

(** C9.  When the configuration does not resolve (the constructor of the
    application object raises), every command ends in [main] with exit
    status 1 after the single call [Stellar()]: no other method of the
    application object runs and only the terminal changes.  A missing or
    invalid configuration and a missing psycopg2, pymysql or MySQLdb
    driver are reported by their own messages followed by [sys.exit(1)];
    any other exception leaves [main] uncaught. *)
Theorem configuration_failure_is_fatal (budget : nat) (args : argv) (w : World)
    (e : exn) :
  config w = inl e ->
  let r := main budget args w in
  exit_status (result r) = Some 1 /\
  same_state w (final r) /\
  head (calls r) = Some (app Stellar.new) /\
  (forall m, app m ∈ calls r -> m = Stellar.new) /\
  match e with
  | MissingConfig =>
      result r = Exited 1 /\
      stdout (final r) =
      stdout w ++ ["You don't have stellar.yaml configuration yet." +:+ newline;
                   "Initialize it by running: stellar init" +:+ newline]
  | InvalidConfig message =>
      result r = Exited 1 /\
      stdout (final r) =
      stdout w ++ [("Your stellar.yaml configuration is wrong: " +:+ message) +:+ newline]
  | ImportError message =>
      if contains "No module named" message &&
         (contains "psycopg2" message || contains "pymysql" message ||
          contains "MySQLdb" message)
      then result r = Exited 1 /\
           exists lines, lines <> [] /\ stdout (final r) = stdout w ++ lines
      else result r = Raised e /\ stdout (final r) = stdout w
  | _ => result r = Raised e /\ stdout (final r) = stdout w
  end.
Proof.
  intros Hc. cbn zeta. unfold main.
  rewrite (stellar_unconfigured budget args w e Hc). cbn [result final calls].
  destruct e as [|message|message| | |]; cbn [on_exception].
  - open_command. do 2 step_io. cbn [after run result final calls List.app].
    split_and!; first [done | settle_unconfigured].
  - open_command. step_io. cbn [after run result final calls List.app].
    split_and!; first [done | settle_unconfigured].
  - unfold libraries. cbn [on_import_error].
    destruct (contains "No module named" message);
      destruct (contains "psycopg2" message);
      destruct (contains "pymysql" message);
      destruct (contains "MySQLdb" message);
      cbn [andb orb]; open_command; repeat step_io;
      cbn [after run result final calls List.app exit_status];
      (split_and!;
       first [done | settle_unconfigured]).
  - split_and!; first [done | settle_unconfigured].
  - split_and!; first [done | settle_unconfigured].
  - split_and!; first [done | settle_unconfigured].
Qed.

Lemma configuration_failure_is_fatal_witness :
  let r := main 3 (run_snapshot (Some "v2")) (broken_world MissingConfig) in
  result r = Exited 1 /\
  registry (final r) = [v1_record true None] /\
  calls r = [app Stellar.new;
             click_echo "You don't have stellar.yaml configuration yet.";
             click_echo "Initialize it by running: stellar init"].
Proof.
  destruct (configuration_failure_is_fatal 3 (run_snapshot (Some "v2"))
              (broken_world MissingConfig) MissingConfig eq_refl)
    as (_ & (_ & Hreg & _) & _ & _ & Hres & _).
  cbn zeta. split_and!; [exact Hres | exact Hreg | reflexivity].
Defined.

(** ** C1: waiting for the copy before restoring *)

Lemma run_bind {A B : Type} (p : Prog A) (f : A -> Prog B) (w : World) :
  run (bind p f) w =
  match result (run p w) with
  | Returned a =>
      let rest := run (f a) (final (run p w)) in
      mkRun (result rest) (final rest) (calls (run p w) ++ calls rest)
  | Exited status => mkRun (Exited status) (final (run p w)) (calls (run p w))
  | Raised e => mkRun (Raised e) (final (run p w)) (calls (run p w))
  | Spinning => mkRun Spinning (final (run p w)) (calls (run p w))
  end.
Proof.
  revert w. induction p as [a|status| |op k IH]; intros w; cbn [bind run].
  - cbn [result final calls List.app]. by destruct (run (f a) w).
  - done.
  - done.
  - destruct (handle op w) as [[e|r] w']; [done|].
    rewrite IH. unfold after. cbn [result final calls].
    by destruct (result (run (k r) w')).
Qed.

Lemma polling_rounds (n : nat) (s : Snapshot) (op : Op) :
  op ∈ concat (replicate n (polling s)) -> op ∈ polling s.
Proof.
  induction n as [|n IH]; cbn [replicate concat].
  - intros H. by apply elem_of_nil in H.
  - rewrite elem_of_app. intros [H|H]; [done | by apply IH].
Qed.

Lemma stalled_next_second (s : Snapshot) (w : World) :
  stalled s w -> stalled s (tick (print "." w)) /\
  databases (tick (print "." w)) = databases w /\
  registry (tick (print "." w)) = registry w.
Proof.
  intros (Hup & Hw & Hs & Hget). unfold tick. cbn [workers print]. rewrite Hw.
  cbn [run_workers]. split; [|done].
  split_and!; done.
Qed.

(** Once the copy process is gone and the snapshot is not ready, the loop
    never ends: whatever the budget, it is used up, and the loop has done
    nothing but write dots, sleep and re-read the record. *)
Lemma wait_for_slaves_stalled (budget : nat) (s : Snapshot) (w : World) :
  stalled s w ->
  let r := run (command.wait_for_slaves budget s) w in
  result r = Spinning /\
  calls r = concat (replicate budget (polling s)) /\
  databases (final r) = databases w /\
  registry (final r) = registry w.
Proof.
  revert w. induction budget as [|budget IH]; intros w Hst; cbn zeta;
    pose proof Hst as (Hup & Hw & Hs & Hget);
    cbn [command.wait_for_slaves]; rewrite Hs.
  - done.
  - open_command. do 3 step_io. cbn [Nat.iter].
    destruct (stalled_next_second s w Hst) as (Hst' & Hdb & Hreg).
    pose proof Hst' as (Hup' & _ & _ & Hget').
    step_app Hup'. rewrite Hget'.
    destruct (IH _ Hst') as (H1 & H2 & H3 & H4).
    cbn [after result final calls replicate concat polling List.app].
    rewrite H1, H2, H3, H4. done.
Qed.

(** C1, at the failing input.  Snapshot v1 is not ready and its copy
    process, alive when [restore] probes it, is killed during the first
    second of waiting.  For every iteration budget the command is still in
    its polling loop: it has neither fallen back to [inline_slave_copy]
    nor restored anything, although the process is gone. *)
Theorem restore_keeps_waiting_for_dead_worker (budget : nat) :
  let s := v1_record false (Some 100) in
  let r := run (command.restore budget (Some "v1")) doomed_worker_world in
  Engine.is_worker_alive s doomed_worker_world = true /\
  Engine.is_worker_alive s (tick doomed_worker_world) = false /\
  result r = Spinning /\
  (forall s', app (Stellar.inline_slave_copy s') ∉ calls r) /\
  (forall s', app (Stellar.restore s') ∉ calls r) /\
  databases (final r) = databases doomed_worker_world.
Proof.
  cbn zeta. split; [reflexivity|]. split; [reflexivity|].
  assert (Hup : up doomed_worker_world) by (split; [by eexists | done]).
  set (s := v1_record false (Some 100)).
  unfold command.restore. open_command. step_app Hup.
  cbn [truthy given default id negb mbind Prog_bind bind].
  step_app Hup.
  change (Registry.get "v1" (registry doomed_worker_world)) with (Some s).
  cbn [mbind Prog_bind bind]. change (slaves_ready s) with false.
  cbn [negb mbind Prog_bind bind]. open_command.
  step_app Hup.
  change (Engine.is_worker_alive s doomed_worker_world) with true.
  cbn [mbind Prog_bind bind]. do 2 step_io.
  set (w1 := print _ doomed_worker_world).
  destruct budget as [|budget].
  - cbn [command.wait_for_slaves]. change (slaves_ready s) with false.
    cbn [bind run after result final calls].
    split_and!; try done; intros s' Hin; absent Hin.
  - cbn [command.wait_for_slaves]. change (slaves_ready s) with false.
    open_command. do 3 step_io. cbn [Nat.iter].
    set (w2 := tick (print "." w1)).
    assert (Hst : stalled s w2).
    { split_and!; try reflexivity. split; [by eexists | done]. }
    pose proof Hst as (Hup2 & _).
    step_app Hup2.
    change (Registry.get (snapshot_name s) (registry w2)) with (Some s).
    cbv beta iota. rewrite !run_bind.
    destruct (wait_for_slaves_stalled budget s w2 Hst) as (H1 & H2 & H3 & H4).
    cbn zeta in *. rewrite H1. cbn [result final calls after].
    rewrite H2, H3. split_and!; try done.
    + intros s' Hin.
      repeat (apply elem_of_cons in Hin as [Hin|Hin]; [discriminate Hin|]).
      apply polling_rounds in Hin. absent Hin.
    + intros s' Hin.
      repeat (apply elem_of_cons in Hin as [Hin|Hin]; [discriminate Hin|]).
      apply polling_rounds in Hin. absent Hin.
Qed.

(** ** C2: the collision check and the write *)

(** C2, refuted as stated.  Both [snapshot v1] commands pass their check
    before either writes:
    the second write meets the name already taken, and both commands
    return normally.  The same happens to two [rename] commands with one
    target, and both print that they renamed. *)
Lemma racing_commands_both_succeed :
  (~ writes_in_time [0; 0; 1; 1; 1; 0] racing_creators fresh_world /\
   processes_after [0; 0; 1; 1; 1; 0] racing_creators fresh_world =
   [Finished (Returned tt); Finished (Returned tt)]) /\
  (~ writes_in_time [0; 0; 0; 1; 1; 1; 1; 1; 0; 0] racing_renamers two_snapshots_world /\
   processes_after [0; 0; 0; 1; 1; 1; 1; 1; 0; 0] racing_renamers two_snapshots_world =
   [Finished (Returned tt); Finished (Returned tt)] /\
   stdout (world_after [0; 0; 0; 1; 1; 1; 1; 1; 0; 0] racing_renamers two_snapshots_world) =
   ["Renamed snapshot v2 to x" +:+ newline; "Renamed snapshot v1 to x" +:+ newline] /\
   names (registry (world_after [0; 0; 0; 1; 1; 1; 1; 1; 0; 0] racing_renamers
                      two_snapshots_world)) = ["v1"; "x"]).
Proof.
  split.
  - split; [|reflexivity].
    intros Hno.
    specialize (Hno (mkEvent 0 (app (Stellar.create_snapshot "v1" (Some before_copy)))
                       [mkSnapshot "v1" 0 false (Some 100) "stellar_v1"])).
    discriminate Hno. do 5 right. left.
  - split_and!; try reflexivity.
    intros Hno.
    specialize (Hno (mkEvent 0 (app (Stellar.rename_snapshot (v1_record true None) "x"))
                       [v1_record true None; mkSnapshot "x" 1 true None "stellar_x"])).
    discriminate Hno. do 8 right. left.
Qed.

(** Splits [H : x ∈ l] for an explicit list [l], dropping the elements
    that cannot be [x]. *)
Ltac scan H :=
  repeat first
    [ apply elem_of_nil in H; destruct H
    | apply elem_of_cons in H as [H|H]; [try discriminate H|] ].

Lemma dispatch_get_snapshot (name : string) (w w' : World) (r : option Snapshot) :
  dispatch (Stellar.get_snapshot name) w = (inr r, w') ->
  r = Registry.get name (registry w) /\ registry w' = registry w.
Proof.
  unfold dispatch, connect. destruct (config w) as [e|cfg]; [done|].
  cbn. destruct (outage_in w) as [[|k]|]; cbn; intros [= <- <-]; done.
Qed.

Lemma dispatch_default_snapshot_name (w w' : World) (r : string) :
  dispatch Stellar.default_snapshot_name w = (inr r, w') -> w' = w.
Proof.
  unfold dispatch. destruct (config w) as [e|cfg]; [done|].
  cbn. by intros [= _ <-].
Qed.

(** In one command run on its own, the write follows a lookup that found
    the name free. *)
Lemma snapshot_checks_first (w : World) (name : option string) (n : string)
    (h : option hook) :
  app (Stellar.create_snapshot n h) ∈ calls (run (command.snapshot name) w) ->
  Registry.get n (registry w) = None.
Proof.
  unfold command.snapshot. open_command. rewrite run_Do. cbn [handle].
  destruct (dispatch Stellar.new w) as [[e|[]] w1] eqn:H1;
    cbn [after calls]; intros Hin; [scan Hin|].
  apply dispatch_new in H1 as (_ & _ & Hreg1 & _).
  apply elem_of_cons in Hin as [Hin|Hin]; [discriminate Hin|].
  revert Hin. destruct (truthy name); cbn [mbind Prog_bind bind].
  - rewrite run_Do. cbn [handle].
    destruct (dispatch (Stellar.get_snapshot (given name)) w1) as [[e|r] w2] eqn:H2;
      cbn [after calls]; intros Hin; [scan Hin|].
    apply dispatch_get_snapshot in H2 as [-> Hreg2].
    apply elem_of_cons in Hin as [Hin|Hin]; [discriminate Hin|].
    revert Hin. rewrite Hreg1.
    destruct (Registry.get (given name) (registry w)) as [s|] eqn:Hget.
    + open_command. rewrite run_Do. cbn [handle after run calls].
      intros Hin. scan Hin.
    + rewrite run_Do. cbn [handle].
      destruct (dispatch _ w2) as [[e|r] w3]; cbn [after run calls];
        intros Hin; scan Hin; by injection Hin as -> _.
  - rewrite run_Do. cbn [handle].
    destruct (dispatch Stellar.default_snapshot_name w1) as [[e|d] w1'] eqn:Hd;
      cbn [after calls]; intros Hin; [scan Hin|].
    apply dispatch_default_snapshot_name in Hd as ->.
    apply elem_of_cons in Hin as [Hin|Hin]; [discriminate Hin|].
    revert Hin. rewrite run_Do. cbn [handle].
    destruct (dispatch (Stellar.get_snapshot d) w1) as [[e|r] w2] eqn:H2;
      cbn [after calls]; intros Hin; [scan Hin|].
    apply dispatch_get_snapshot in H2 as [-> Hreg2].
    apply elem_of_cons in Hin as [Hin|Hin]; [discriminate Hin|].
    revert Hin. rewrite Hreg1.
    destruct (Registry.get d (registry w)) as [s|] eqn:Hget.
    + open_command. rewrite run_Do. cbn [handle after run calls].
      intros Hin. scan Hin.
    + rewrite run_Do. cbn [handle].
      destruct (dispatch _ w2) as [[e|r] w3]; cbn [after run calls];
        intros Hin; scan Hin; by injection Hin as -> _.
Qed.

Lemma rename_checks_first (w : World) (old_name new_name n : string) (s : Snapshot) :
  app (Stellar.rename_snapshot s n) ∈ calls (run (command.rename old_name new_name) w) ->
  n = new_name /\
  Registry.get old_name (registry w) = Some s /\
  Registry.get new_name (registry w) = None.
Proof.
  unfold command.rename. open_command. rewrite run_Do. cbn [handle].
  destruct (dispatch Stellar.new w) as [[e|[]] w1] eqn:H1;
    cbn [after calls]; intros Hin; [scan Hin|].
  apply dispatch_new in H1 as (_ & _ & Hreg1 & _).
  apply elem_of_cons in Hin as [Hin|Hin]; [discriminate Hin|].
  revert Hin. rewrite run_Do. cbn [handle].
  destruct (dispatch (Stellar.get_snapshot old_name) w1) as [[e|r] w2] eqn:H2;
    cbn [after calls]; intros Hin; [scan Hin|].
  apply dispatch_get_snapshot in H2 as [-> Hreg2].
  apply elem_of_cons in Hin as [Hin|Hin]; [discriminate Hin|].
  revert Hin. rewrite Hreg1.
  destruct (Registry.get old_name (registry w)) as [found|] eqn:Hold.
  - rewrite run_Do. cbn [handle].
    destruct (dispatch (Stellar.get_snapshot new_name) w2) as [[e|r] w3] eqn:H3;
      cbn [after calls]; intros Hin; [scan Hin|].
    apply dispatch_get_snapshot in H3 as [-> Hreg3].
    apply elem_of_cons in Hin as [Hin|Hin]; [discriminate Hin|].
    revert Hin. rewrite Hreg2, Hreg1.
    destruct (Registry.get new_name (registry w)) as [taken|] eqn:Hnew.
    + open_command. rewrite run_Do. cbn [handle after run calls].
      intros Hin. scan Hin.
    + open_command. rewrite run_Do. cbn [handle].
      destruct (dispatch _ w3) as [[e|r] w4]; cbn [after calls].
      * intros Hin. scan Hin. by injection Hin as -> ->.
      * rewrite run_Do. cbn [handle after run calls].
        intros Hin. scan Hin. by injection Hin as -> ->.
  - open_command. rewrite run_Do. cbn [handle after run calls].
    intros Hin. scan Hin.
Qed.

(** *** Names stay unique whatever the interleaving *)

Lemma names_mark_ready (name : string) (reg : list Snapshot) :
  names (Registry.mark_ready name reg) = names reg.
Proof.
  unfold names, Registry.mark_ready. rewrite <- list_fmap_compose.
  apply list_fmap_ext. intros i x _. cbn.
  destruct (Registry.named name x); [|done].
  unfold Registry.ready_now. by destruct (slaves_ready x).
Qed.

Lemma registry_copy_forward (table location : string) (w : World) :
  registry (copy_forward table location w) = registry w.
Proof. done. Qed.

Lemma registry_copy_backward (location table : string) (w : World) :
  registry (copy_backward location table w) = registry w.
Proof. unfold copy_backward. by destruct (_ ≫= _). Qed.

Lemma registry_observe (h : option hook) (table : string) (w : World) :
  registry (observe h table w) = registry w.
Proof. by destruct h. Qed.

Lemma registry_foldl (step : World -> string -> World) (tables : list string) (w : World) :
  (forall acc t, registry (step acc t) = registry acc) ->
  registry (foldl step w tables) = registry w.
Proof.
  intros Hstep. revert w. induction tables as [|t tables IH]; intros w; cbn; [done|].
  by rewrite IH, Hstep.
Qed.

Lemma names_worker_step (wk : Worker) (w : World) :
  names (registry (worker_step wk w).1) = names (registry w).
Proof.
  unfold worker_step.
  destruct (killed_in wk) as [[|k]|];
    try (destruct (Registry.owned_by _ _); [destruct (todo wk)|]); cbn [fst]; try done.
  all: first
    [ unfold mark_ready; cbn [registry set_registry]; apply names_mark_ready
    | by rewrite registry_copy_forward, registry_observe ].
Qed.

Lemma names_run_workers (wks : list Worker) (w : World) :
  names (registry (run_workers wks w).1) = names (registry w).
Proof.
  revert w. induction wks as [|wk wks IH]; intros w; cbn [run_workers]; [done|].
  destruct (worker_step wk w) as [w1 alive] eqn:H1.
  destruct (run_workers wks w1) as [w2 others] eqn:H2. cbn [fst].
  change w2 with (w2, others).1. rewrite <- H2, IH.
  change w1 with (w1, alive).1. rewrite <- H1. apply names_worker_step.
Qed.

Lemma names_tick (w : World) : names (registry (tick w)) = names (registry w).
Proof.
  unfold tick. destruct (run_workers (workers w) w) as [w' wks] eqn:H.
  cbn [registry set_clock set_workers].
  change w' with (w', wks).1. rewrite <- H. apply names_run_workers.
Qed.

Lemma names_ticks (n : nat) (w : World) :
  names (registry (Nat.iter n tick w)) = names (registry w).
Proof.
  induction n as [|n IH]; [done|]. by rewrite Nat.iter_succ, names_tick.
Qed.

Lemma names_filter_NoDup (keep : Snapshot -> bool) (reg : list Snapshot) :
  NoDup (names reg) -> NoDup (names (List.filter keep reg)).
Proof.
  unfold names. induction reg as [|x reg IH]; cbn; [done|].
  rewrite NoDup_cons. intros [Hx Hreg].
  destruct (keep x); cbn; [|by apply IH].
  apply NoDup_cons. split; [|by apply IH].
  intros Hin. apply Hx. apply list_elem_of_fmap in Hin as (y & -> & Hy).
  apply list_elem_of_fmap. exists y. split; [done|].
  apply list_elem_of_In in Hy. apply filter_In in Hy as [Hy _].
  by apply list_elem_of_In.
Qed.

Lemma names_relabel_elem (old new location n : string) (reg : list Snapshot) :
  n ∈ names (Registry.relabel old new location <$> reg) -> n ∈ names reg \/ n = new.
Proof.
  unfold names. rewrite <- list_fmap_compose.
  intros (x & -> & Hx)%list_elem_of_fmap. cbn. unfold Registry.relabel.
  destruct (Registry.named old x); [by right|].
  left. apply list_elem_of_fmap. by exists x.
Qed.

Lemma relabel_absent (old new location : string) (reg : list Snapshot) :
  old ∉ names reg -> Registry.relabel old new location <$> reg = reg.
Proof.
  unfold names. induction reg as [|x reg IH]; cbn; [done|].
  rewrite not_elem_of_cons. intros [Hx Hreg]. rewrite IH by done.
  unfold Registry.relabel.
  by rewrite (proj2 (named_false old x)) by congruence.
Qed.

Lemma names_relabel_NoDup (old new location : string) (reg : list Snapshot) :
  NoDup (names reg) -> new ∉ names reg ->
  NoDup (names (Registry.relabel old new location <$> reg)).
Proof.
  induction reg as [|x reg IH]; [done|].
  change (names (x :: reg)) with (snapshot_name x :: names reg).
  rewrite NoDup_cons, not_elem_of_cons. intros [Hx Hreg] [Hnew Hfree].
  cbn [fmap list_fmap].
  change (names (?y :: ?l)) with (snapshot_name y :: names l).
  destruct (Registry.named old x) eqn:Hold.
  - apply named_true in Hold. rewrite Hold in Hx.
    rewrite (relabel_absent old new location reg Hx).
    unfold Registry.relabel. rewrite (proj2 (named_true old x) Hold). cbn.
    apply NoDup_cons. done.
  - assert (Hrel : Registry.relabel old new location x = x)
      by (unfold Registry.relabel; by rewrite Hold).
    rewrite Hrel.
    apply NoDup_cons. split; [|by apply IH].
    intros [Hin|Heq]%names_relabel_elem; [done | congruence].
Qed.

Lemma names_snoc_NoDup (s : Snapshot) (reg : list Snapshot) :
  NoDup (names reg) -> snapshot_name s ∉ names reg -> NoDup (names (reg ++ [s])).
Proof.
  intros Hreg Hs. unfold names. rewrite fmap_app. apply NoDup_app.
  split_and!; [done | | apply NoDup_singleton].
  intros n Hn Hin. apply list_elem_of_singleton in Hin as ->. done.
Qed.

Lemma create_unique (name : string) (h : option hook) (w : World) :
  NoDup (names (registry w)) ->
  NoDup (names (registry (Engine.create name h w).2)).
Proof.
  intros Huniq. unfold Engine.create, Registry.insert. cbn [snapshot_name].
  destruct (Registry.get name (registry w)) eqn:Hget; cbn; [done|].
  apply names_snoc_NoDup; [done|]. by apply get_None_names.
Qed.

Lemma remove_unique (s : Snapshot) (w : World) :
  NoDup (names (registry w)) ->
  NoDup (names (registry (Engine.remove s w))).
Proof.
  intros Huniq. unfold Engine.remove, Registry.delete. cbn [registry set_storage].
  destruct (Registry.get (snapshot_name s) (registry w)); cbn; [|done].
  by apply names_filter_NoDup.
Qed.

Lemma rename_unique (s : Snapshot) (new_name : string) (w : World) :
  NoDup (names (registry w)) ->
  NoDup (names (registry (Engine.rename s new_name w).2)).
Proof.
  intros Huniq. unfold Engine.rename, Registry.rename.
  destruct (Registry.get (snapshot_name s) (registry w)); cbn; [|done].
  destruct (Registry.get new_name (registry w)) eqn:Hnew; cbn; [done|].
  apply names_relabel_NoDup; [done|]. by apply get_None_names.
Qed.

Lemma connect_registry (w w' : World) :
  connect w = Some w' -> registry w' = registry w.
Proof.
  unfold connect. destruct (outage_in w) as [[|k]|]; [done| |]; by intros [= <-].
Qed.

Lemma serve_unique (m : Stellar.method) (w : World) :
  NoDup (names (registry w)) -> NoDup (names (registry (serve m w).2)).
Proof.
  intros Huniq.
  destruct m as [| |name| | |name h|s|s new_name|s|s|s|h|s];
    cbn [serve snd]; try done.
  - pose proof (create_unique name h w Huniq) as H.
    by destruct (Engine.create name h w).
  - by apply remove_unique.
  - pose proof (rename_unique s new_name w Huniq) as H.
    by destruct (Engine.rename s new_name w).
  - unfold Engine.inline_copy, mark_ready. cbn [registry set_registry].
    rewrite names_mark_ready, registry_foldl; done.
  - unfold Engine.restore. rewrite registry_foldl; [done|].
    intros acc t. apply registry_copy_backward.
  - unfold Engine.gc. cbn [snd].
    by destruct (sweep_keeps h (Engine.orphans w) w) as (_ & _ & -> & _).
  - by destruct (Registry.get _ _).
Qed.

Lemma handle_unique (op : Op) (w : World) :
  NoDup (names (registry w)) -> NoDup (names (registry (handle op w).2)).
Proof.
  intros Huniq. destruct op as [m| | | | |seconds| |]; cbn [handle snd]; try done.
  - unfold dispatch. destruct (config w); [done|].
    destruct (reaches_database m); [|by apply serve_unique].
    destruct (connect w) as [w'|] eqn:Hconn; [|done].
    apply serve_unique. by rewrite (connect_registry w w' Hconn).
  - by destruct (config w).
  - by rewrite names_ticks.
Qed.

Lemma step_unique (i : nat) (ps : list process) (w : World) :
  NoDup (names (registry w)) -> NoDup (names (registry (step i ps w).1.2)).
Proof.
  intros Huniq. unfold step.
  destruct (ps !! i) as [[[a|status| |op k]|o]|]; try done.
  pose proof (handle_unique op w Huniq) as H.
  by destruct (handle op w) as [[e|r] w'].
Qed.

Lemma interleave_unique (schedule : list nat) (ps : list process) (w : World) :
  NoDup (names (registry w)) ->
  NoDup (names (registry (world_after schedule ps w))).
Proof.
  unfold world_after. revert ps w.
  induction schedule as [|i later IH]; intros ps w Huniq; cbn [interleave]; [done|].
  pose proof (step_unique i ps w Huniq) as H1.
  destruct (step i ps w) as [[ps1 w1] ev1]. cbn [fst snd] in H1.
  pose proof (IH ps1 w1 H1) as H2.
  by destruct (interleave later ps1 w1) as [[ps2 w2] ev2].
Qed.

(** C2, as the code has it.  Run on its own, [snapshot] calls
    [create_snapshot] only for a name its lookup found free, and [rename]
    calls [rename_snapshot] only for a found record and a target its lookup
    found free: the check is a step of the command, separate from the
    write.  Under every interleaving of commands the names in the registry
    stay unique, by the conditional write of the registry alone. *)
Theorem uniqueness_check_then_write :
  (forall (w : World) (name : option string) (n : string) (h : option hook),
     app (Stellar.create_snapshot n h) ∈ calls (run (command.snapshot name) w) ->
     Registry.get n (registry w) = None) /\
  (forall (w : World) (old_name new_name n : string) (s : Snapshot),
     app (Stellar.rename_snapshot s n) ∈
       calls (run (command.rename old_name new_name) w) ->
     n = new_name /\
     Registry.get old_name (registry w) = Some s /\
     Registry.get new_name (registry w) = None) /\
  (forall (schedule : list nat) (ps : list process) (w : World),
     NoDup (names (registry w)) ->
     NoDup (names (registry (world_after schedule ps w)))).
Proof.
  split_and!.
  - apply snapshot_checks_first.
  - apply rename_checks_first.
  - apply interleave_unique.
Qed.

Lemma uniqueness_check_then_write_witness :
  Registry.get "v2" (registry ready_world) = None /\
  NoDup (names (registry (world_after [0; 0; 1; 1; 1; 0] racing_creators fresh_world))).
Proof.
  destruct uniqueness_check_then_write as (Hcreate & _ & Hunique).
  split.
  - apply (Hcreate ready_world (Some "v2") "v2" (Some before_copy)).
    apply list_elem_of_In. vm_compute. right. right. left. reflexivity.
  - apply Hunique. apply NoDup_nil_2.
Defined.

(** ** C1: the branches of [restore] that behave as described *)

Lemma inline_copy_keeps (s : Snapshot) (w : World) :
  config (Engine.inline_copy s w) = config w /\
  outage_in (Engine.inline_copy s w) = outage_in w.
Proof.
  unfold Engine.inline_copy, mark_ready. cbn [config outage_in set_registry].
  generalize (tracked w). intros tables. revert w.
  induction tables as [|t tables IH]; intros w; cbn [foldl]; [done|].
  destruct (IH (copy_forward t (storage_location s) w)) as [-> ->]. done.
Qed.

(** X12.  A ready snapshot is restored at once. *)
Lemma restore_ready (w : World) (budget : nat) (name : string) (s : Snapshot) :
  up w -> name <> "" ->
  Registry.get name (registry w) = Some s -> slaves_ready s = true ->
  let r := run (command.restore budget (Some name)) w in
  result r = Returned tt /\
  calls r = [app Stellar.new; app (Stellar.get_snapshot name);
             app (Stellar.restore s); click_echo "Restore complete."] /\
  final r = echoed "Restore complete." (Engine.restore s w).
Proof.
  intros Hup Hname Hget Hready. cbn zeta.
  destruct name as [|a name]; [done|].
  unfold command.restore. open_command. step_app Hup.
  cbn [truthy given default id negb mbind Prog_bind bind].
  step_app Hup. rewrite Hget. cbn [mbind Prog_bind bind]. rewrite Hready.
  cbn [negb mbind Prog_bind bind]. open_command. step_app Hup. step_io.
  done.
Qed.

(** X13.  A snapshot that is not ready and has no live copy process is copied
    inline, then restored. *)
Lemma restore_without_worker (w : World) (budget : nat) (name : string) (s : Snapshot) :
  up w -> name <> "" ->
  Registry.get name (registry w) = Some s -> slaves_ready s = false ->
  Engine.is_worker_alive s w = false ->
  let r := run (command.restore budget (Some name)) w in
  result r = Returned tt /\
  calls r = [app Stellar.new; app (Stellar.get_snapshot name);
             app (Stellar.is_copy_process_running s);
             click_echo "Background process missing, doing slow restore.";
             app (Stellar.inline_slave_copy s);
             app (Stellar.restore s); click_echo "Restore complete."].
Proof.
  intros Hup Hname Hget Hready Hdead. cbn zeta.
  destruct name as [|a name]; [done|].
  unfold command.restore. open_command. step_app Hup.
  cbn [truthy given default id negb mbind Prog_bind bind].
  step_app Hup. rewrite Hget. cbn [mbind Prog_bind bind]. rewrite Hready.
  cbn [negb mbind Prog_bind bind]. open_command. step_app Hup. rewrite Hdead.
  cbn [mbind Prog_bind bind]. step_io.
  assert (Hup1 : up (echoed "Background process missing, doing slow restore." w))
    by (by apply (up_same w)).
  step_app Hup1.
  assert (Hup2 : up (Engine.inline_copy s
            (echoed "Background process missing, doing slow restore." w))).
  { destruct (inline_copy_keeps s
      (echoed "Background process missing, doing slow restore." w)) as [Hc Ho].
    by apply (up_same w). }
  step_app Hup2. step_io. done.
Qed.

(** A live, healthy copy process is waited for, one second at a time, and
    no inline copy is made: here two databases are copied in two seconds
    and the snapshot is marked ready in the third. *)
Lemma restore_waits_for_worker :
  let r := run (command.restore 5 (Some "v1")) copying_world in
  result r = Returned tt /\
  List.filter (fun op => bool_decide (op = sleep 1)) (calls r) =
  [sleep 1; sleep 1; sleep 1] /\
  List.filter (fun op => bool_decide (op = app (Stellar.inline_slave_copy
                                                  (v1_record false (Some 100)))))
              (calls r) = [] /\
  last (calls r) = Some (click_echo "Restore complete.") /\
  databases (final r) = sample_databases.
Proof. vm_compute. done. Qed.

(** * Further properties of the commands *)

(** ** Whatever the application object does *)

Section AnyHandler.

Context {S : Type} (h : handler S).

Lemma run_with_Do {A : Type} (op : Op) (k : ret op -> Prog A) (st : S) :
  run_with h (Do op k) st =
  match h op st with
  | (inl e, st') => mkRan (Raised e) st' [op]
  | (inr r, st') =>
      mkRan (ended (run_with h (k r) st')) (state (run_with h (k r) st'))
            (op :: made (run_with h (k r) st'))
  end.
Proof. reflexivity. Qed.

Lemma run_with_bind {A B : Type} (p : Prog A) (f : A -> Prog B) (st : S) :
  run_with h (bind p f) st =
  match ended (run_with h p st) with
  | Returned a =>
      let rest := run_with h (f a) (state (run_with h p st)) in
      mkRan (ended rest) (state rest) (made (run_with h p st) ++ made rest)
  | Exited status =>
      mkRan (Exited status) (state (run_with h p st)) (made (run_with h p st))
  | Raised e => mkRan (Raised e) (state (run_with h p st)) (made (run_with h p st))
  | Spinning => mkRan Spinning (state (run_with h p st)) (made (run_with h p st))
  end.
Proof.
  revert st. induction p as [a|status| |op k IH]; intros st; cbn [bind run_with].
  - cbn [ended state made List.app]. by destruct (run_with h (f a) st).
  - done.
  - done.
  - destruct (h op st) as [[e|r] st']; [done|].
    rewrite IH. cbn [ended state made].
    by destruct (ended (run_with h (k r) st')).
Qed.

Lemma calls_only_sound {A : Type} (allowed : Op -> bool) (p : Prog A) (st : S) :
  calls_only allowed p ->
  forall op, op ∈ made (run_with h p st) -> allowed op = true.
Proof.
  revert st. induction p as [a|status| |op k IH]; intros st Hp op' Hin;
    cbn [run_with made] in Hin; try by apply elem_of_nil in Hin.
  destruct Hp as [Hop Hk].
  destruct (h op st) as [[e|r] st']; cbn [made] in Hin.
  - apply list_elem_of_singleton in Hin as ->. done.
  - apply elem_of_cons in Hin as [->|Hin]; [done|]. by apply (IH r st').
Qed.

Lemma exits_only_sound {A : Type} (accepted : nat -> bool) (p : Prog A) (st : S)
    (status : nat) :
  exits_only accepted p ->
  ended (run_with h p st) = Exited status -> accepted status = true.
Proof.
  revert st. induction p as [a|n| |op k IH]; intros st Hp; cbn [run_with ended];
    try done.
  - by intros [= <-].
  - destruct (h op st) as [[e|r] st']; cbn [ended]; [done|]. by apply IH.
Qed.

End AnyHandler.

Lemma calls_only_bind {A B : Type} (allowed : Op -> bool) (p : Prog A)
    (f : A -> Prog B) :
  calls_only allowed p -> (forall a, calls_only allowed (f a)) ->
  calls_only allowed (bind p f).
Proof.
  intros Hp Hf. induction p as [a|status| |op k IH]; cbn [bind calls_only]; try done.
  destruct Hp as [Hop Hk]. split; [done|]. intros r. by apply IH.
Qed.

Lemma exits_only_bind {A B : Type} (accepted : nat -> bool) (p : Prog A)
    (f : A -> Prog B) :
  exits_only accepted p -> (forall a, exits_only accepted (f a)) ->
  exits_only accepted (bind p f).
Proof.
  intros Hp Hf. induction p as [a|status| |op k IH]; cbn [bind exits_only]; try done.
  intros r. by apply IH.
Qed.

Lemma calls_only_mono {A : Type} (allowed allowed' : Op -> bool) (p : Prog A) :
  (forall op, allowed op = true -> allowed' op = true) ->
  calls_only allowed p -> calls_only allowed' p.
Proof.
  intros Hsub. induction p as [a|status| |op k IH]; cbn [calls_only]; try done.
  intros [Hop Hk]. split; [by apply Hsub|]. intros r. by apply IH.
Qed.

Lemma wait_for_slaves_calls (budget : nat) (s : Snapshot) :
  calls_only restore_calls (command.wait_for_slaves budget s).
Proof.
  revert s. induction budget as [|budget IH]; intros s;
    cbn [command.wait_for_slaves]; destruct (slaves_ready s); cbn; try done;
    repeat split; intros; apply IH.
Qed.

Lemma wait_for_slaves_exits (budget : nat) (s : Snapshot) (accepted : nat -> bool) :
  exits_only accepted (command.wait_for_slaves budget s).
Proof.
  revert s. induction budget as [|budget IH]; intros s;
    cbn [command.wait_for_slaves]; destruct (slaves_ready s); cbn; try done;
    intros; apply IH.
Qed.

Lemma list_lines_calls (snapshots : list Snapshot) :
  calls_only list_calls (command.list_lines snapshots).
Proof.
  induction snapshots as [|s rest IH]; cbn; [done|].
  repeat split; intros. by apply calls_only_bind.
Qed.

Lemma list_lines_exits (snapshots : list Snapshot) (accepted : nat -> bool) :
  exits_only accepted (command.list_lines snapshots).
Proof.
  induction snapshots as [|s rest IH]; cbn; [done|].
  intros. by apply exits_only_bind.
Qed.

(** Walks through the body of a command. *)
Ltac walk :=
  unfold mbind, Prog_bind;
  repeat first
    [ progress cbn [calls_only exits_only bind perform call echo
                    command.get_app negb]
    | split
    | reflexivity
    | intro
    | apply wait_for_slaves_calls
    | apply list_lines_calls
    | apply wait_for_slaves_exits
    | apply list_lines_exits
    | apply calls_only_bind
    | apply exits_only_bind
    | match goal with
      | |- context [match ?x with _ => _ end] => destruct x
      end ].

(** Each command starts by constructing the application object; what it
    can call afterwards is its footprint. *)
Lemma command_calls (budget : nat) (args : argv) :
  match stellar budget args with
  | Do op k => op = app Stellar.new /\ forall r, calls_only (footprint args) (k r)
  | _ => False
  end.
Proof.
  destruct args; cbn [stellar footprint];
    [unfold command.gc | unfold command.snapshot | unfold command.list
    | unfold command.restore | unfold command.remove | unfold command.rename
    | unfold command.replace]; walk.
Qed.

Lemma command_exits (budget : nat) (args : argv) :
  exits_only (fun status => bool_decide (status = 1)) (stellar budget args).
Proof.
  destruct args; cbn [stellar];
    [unfold command.gc | unfold command.snapshot | unfold command.list
    | unfold command.restore | unfold command.remove | unfold command.rename
    | unfold command.replace]; walk.
Qed.

Lemma run_as_run_with {A : Type} (p : Prog A) (w : World) :
  run p w = mkRun (ended (run_with handle p w)) (state (run_with handle p w))
                  (made (run_with handle p w)).
Proof.
  revert w. induction p as [a|status| |op k IH]; intros w; cbn [run run_with];
    try done.
  destruct (handle op w) as [[e|r] w']; [done|]. by rewrite IH.
Qed.

(** X1.  Whatever the application object does, a command first constructs it
    and afterwards makes only the calls of its footprint. *)
Theorem commands_stay_in_footprint {S : Type} (h : handler S) (st : S)
    (budget : nat) (args : argv) :
  exists rest,
    made (run_with h (stellar budget args) st) = app Stellar.new :: rest /\
    forall op, op ∈ rest -> footprint args op = true.
Proof.
  pose proof (command_calls budget args) as Hcmd.
  destruct (stellar budget args) as [a|status| |op k]; try done.
  destruct Hcmd as [-> Hk]. rewrite run_with_Do.
  destruct (h (app Stellar.new) st) as [[e|r] st'].
  - exists []. split; [done|]. intros op Hin. by apply elem_of_nil in Hin.
  - eexists. split; [done|]. cbn [made]. intros op Hin.
    by apply (calls_only_sound h (footprint args) (k r) st').
Qed.

(** X2.  [list] never makes a call that changes the registry, the storage or a
    tracked database, whatever the application object does. *)
Theorem list_is_read_only {S : Type} (h : handler S) (st : S) (op : Op) :
  op ∈ made (run_with h command.list st) -> mutating op = false.
Proof.
  intros Hin.
  assert (Hbody : calls_only (fun op => negb (mutating op)) command.list).
  { pose proof (command_calls 0 run_list) as [_ Hk].
    split; [done|]. intros r.
    apply (calls_only_mono list_calls); [|apply Hk].
    by intros [[]| | | | | | |]. }
  pose proof (calls_only_sound h _ _ st Hbody op Hin) as Hop.
  by apply negb_true_iff in Hop.
Qed.

Lemma list_is_read_only_witness :
  mutating (app Stellar.get_snapshots) = false.
Proof.
  apply (list_is_read_only handle ready_world).
  apply list_elem_of_In. vm_compute. right. left. reflexivity.
Defined.

(** X3.  The only status a command ever passes to [sys.exit] is 1. *)
Theorem commands_exit_with_one {S : Type} (h : handler S) (st : S)
    (budget : nat) (args : argv) (status : nat) :
  ended (run_with h (stellar budget args) st) = Exited status -> status = 1.
Proof.
  intros Hend.
  pose proof (exits_only_sound h _ _ st status (command_exits budget args) Hend) as H.
  by apply bool_decide_eq_true in H.
Qed.

Lemma commands_exit_with_one_witness :
  ended (run_with handle (stellar 0 (run_remove "v9")) ready_world) = Exited 1 /\ 1 = 1.
Proof.
  split; [reflexivity|].
  apply (commands_exit_with_one handle ready_world 0 (run_remove "v9") 1).
  reflexivity.
Defined.

(** ** [restore] restores only from a complete copy *)

Lemma restore_stages (budget : nat) (name : option string) :
  command.restore budget name =
  (command.get_app;;
   snapshot ← restore_lookup name;
   snapshot' ← restore_readiness budget snapshot;
   call (Stellar.restore snapshot');;
   echo "Restore complete.").
Proof. reflexivity. Qed.

Lemma restore_lookup_calls (name : option string) :
  calls_only not_restoring (restore_lookup name).
Proof. unfold restore_lookup. walk. Qed.

Lemma wait_for_slaves_quiet (budget : nat) (s : Snapshot) :
  calls_only not_restoring (command.wait_for_slaves budget s).
Proof.
  revert s. induction budget as [|budget IH]; intros s;
    cbn [command.wait_for_slaves]; destruct (slaves_ready s); cbn; try done;
    repeat split; intros; apply IH.
Qed.

Lemma restore_readiness_calls (budget : nat) (s : Snapshot) :
  calls_only not_restoring (restore_readiness budget s).
Proof.
  unfold restore_readiness, mbind, Prog_bind.
  destruct (slaves_ready s); cbn; [done|].
  split; [done|]. intros [|]; cbn; repeat split; intros.
  apply calls_only_bind; [apply wait_for_slaves_quiet|]. intros. cbn. done.
Qed.

Section AnyHandlerRestore.

Context {S : Type} (h : handler S).

(** The polling loop ends normally only with a ready snapshot. *)
Lemma wait_for_slaves_returns_ready (budget : nat) (s s' : Snapshot) (st : S) :
  ended (run_with h (command.wait_for_slaves budget s) st) = Returned s' ->
  slaves_ready s' = true.
Proof.
  revert s st. induction budget as [|budget IH]; intros s st;
    cbn [command.wait_for_slaves]; destruct (slaves_ready s) eqn:Hs.
  1, 3: cbn [run_with ended]; by intros [= <-].
  1: by cbn [run_with ended].
  unfold mbind, Prog_bind, call, perform. cbn [bind].
  rewrite (run_with_Do h). destruct (h _ st) as [[e|r1] st1]; [done|]. cbn [ended].
  rewrite (run_with_Do h). destruct (h _ st1) as [[e|r2] st2]; [done|]. cbn [ended].
  rewrite (run_with_Do h). destruct (h _ st2) as [[e|r3] st3]; [done|]. cbn [ended].
  rewrite (run_with_Do h). destruct (h _ st3) as [[e|r4] st4]; [done|]. cbn [ended].
  apply IH.
Qed.

(** When the readiness stage hands over a snapshot, it is ready or has
    just been copied inline. *)
Lemma restore_readiness_returns (budget : nat) (s s' : Snapshot) (st : S) :
  ended (run_with h (restore_readiness budget s) st) = Returned s' ->
  slaves_ready s' = true \/
  app (Stellar.inline_slave_copy s') ∈ made (run_with h (restore_readiness budget s) st).
Proof.
  unfold restore_readiness, mbind, Prog_bind, echo, call, perform.
  destruct (slaves_ready s) eqn:Hs; cbn [negb bind].
  - cbn. intros [= <-]. by left.
  - rewrite (run_with_Do h). destruct (h _ st) as [[e|[|]] st1]; [done| |];
      cbn [ended made bind].
    + rewrite (run_with_Do h). destruct (h _ st1) as [[e|r2] st2]; [done|].
      cbn [ended made].
      rewrite (run_with_Do h). destruct (h _ st2) as [[e|r3] st3]; [done|].
      cbn [ended made].
      rewrite (run_with_bind h).
      destruct (ended (run_with h (command.wait_for_slaves budget s) st3))
        as [s1| | |] eqn:Hwait; cbn [ended]; try done.
      apply wait_for_slaves_returns_ready in Hwait.
      rewrite (run_with_Do h). destruct (h _ _) as [[e|r4] st4]; [done|].
      cbn. intros [= <-]. by left.
    + rewrite (run_with_Do h). destruct (h _ st1) as [[e|r2] st2]; [done|].
      cbn [ended made].
      rewrite (run_with_Do h). destruct (h _ st2) as [[e|r3] st3]; [done|].
      cbn. intros [= <-]. right. do 2 right. left.
Qed.

(** X5.  Whatever the application object does, [restore] calls [app.restore]
    only on a snapshot that is ready or that it has just copied inline. *)
Theorem restore_only_from_complete_copy (st : S) (budget : nat)
    (name : option string) (s : Snapshot) :
  app (Stellar.restore s) ∈ made (run_with h (command.restore budget name) st) ->
  slaves_ready s = true \/
  app (Stellar.inline_slave_copy s) ∈ made (run_with h (command.restore budget name) st).
Proof.
  rewrite restore_stages.
  unfold command.get_app, mbind, Prog_bind, echo, call, perform.
  cbn [bind]. rewrite (run_with_Do h).
  destruct (h (app Stellar.new) st) as [[e|u] st0]; cbn [made].
  { intros Hin. apply list_elem_of_singleton in Hin. discriminate Hin. }
  rewrite (run_with_bind h).
  pose proof (calls_only_sound h not_restoring _ st0 (restore_lookup_calls name)
                (app (Stellar.restore s))) as Hlook.
  destruct (ended (run_with h (restore_lookup name) st0)) as [s0| | |];
    cbn [made];
    try (intros [Hin|Hin]%elem_of_cons; [discriminate Hin | by specialize (Hlook Hin)]).
  set (st1 := state (run_with h (restore_lookup name) st0)).
  rewrite (run_with_bind h).
  pose proof (calls_only_sound h not_restoring _ st1 (restore_readiness_calls budget s0)
                (app (Stellar.restore s))) as Hstage.
  pose proof (restore_readiness_returns budget s0) as Hret.
  destruct (ended (run_with h (restore_readiness budget s0) st1)) as [s1| | |] eqn:Hend;
    cbn [made];
    try (intros [Hin|Hin]%elem_of_cons; [discriminate Hin|];
         apply elem_of_app in Hin as [Hin|Hin];
         [by specialize (Hlook Hin) | by specialize (Hstage Hin)]).
  specialize (Hret s1 st1 Hend).
  intros [Hin|Hin]%elem_of_cons; [discriminate Hin|].
  apply elem_of_app in Hin as [Hin|Hin]; [by specialize (Hlook Hin)|].
  apply elem_of_app in Hin as [Hin|Hin]; [by specialize (Hstage Hin)|].
  assert (s = s1) as ->.
  { revert Hin. rewrite (run_with_Do h). destruct (h _ _) as [[e|r] st2]; cbn [made].
    - intros Hin. apply list_elem_of_singleton in Hin. by injection Hin.
    - rewrite (run_with_Do h). destruct (h _ _) as [[e|r'] st3]; cbn [made];
        intros [Hin|Hin]%elem_of_cons; try (by injection Hin);
        apply elem_of_cons in Hin as [Hin|Hin]; try discriminate Hin;
        by apply elem_of_nil in Hin. }
  destruct Hret as [Hready|Hcopied]; [by left|].
  right. right. apply elem_of_app. right. apply elem_of_app. by left.
Qed.

End AnyHandlerRestore.

Lemma restore_only_from_complete_copy_witness :
  slaves_ready (v1_record false (Some 100)) = true \/
  app (Stellar.inline_slave_copy (v1_record false (Some 100))) ∈
    made (run_with handle (command.restore 3 (Some "v1")) abandoned_world).
Proof.
  apply (restore_only_from_complete_copy handle abandoned_world 3 (Some "v1")).
  apply list_elem_of_In. vm_compute. do 5 right. left. reflexivity.
Defined.

(** ** What [remove] and [replace] delete and create *)

(** X7.  Whatever the application object does, [remove] passes to
    [remove_snapshot] exactly the record its lookup of the name returned,
    and only after announcing the deletion. *)
Theorem remove_deletes_what_it_found {S : Type} (h : handler S) (st : S)
    (name : string) (s : Snapshot) :
  app (Stellar.remove_snapshot s) ∈ made (run_with h (command.remove name) st) ->
  (exists u st1 st2,
     h (app Stellar.new) st = (inr u, st1) /\
     h (app (Stellar.get_snapshot name)) st1 = (inr (Some s), st2)) /\
  click_echo ("Deleting snapshot " +:+ name) ∈
    made (run_with h (command.remove name) st).
Proof.
  unfold command.remove, command.get_app, mbind, Prog_bind, echo, call, perform.
  cbn [bind]. rewrite (run_with_Do h).
  destruct (h (app Stellar.new) st) as [[e|u] st1] eqn:Hnew; cbn [made];
    intros Hin; [scan Hin|].
  apply elem_of_cons in Hin as [Hin|Hin]; [discriminate Hin|].
  revert Hin. rewrite (run_with_Do h).
  destruct (h (app (Stellar.get_snapshot name)) st1) as [[e|[found|]] st2] eqn:Hget;
    cbn [made bind]; intros Hin; [scan Hin| |].
  - apply elem_of_cons in Hin as [Hin|Hin]; [discriminate Hin|].
    revert Hin. rewrite (run_with_Do h).
    destruct (h _ st2) as [[e|r3] st3]; cbn [made]; intros Hin; [scan Hin|].
    apply elem_of_cons in Hin as [Hin|Hin]; [discriminate Hin|].
    assert (found = s) as ->.
    { revert Hin. rewrite (run_with_Do h).
      destruct (h _ st3) as [[e|r4] st4]; cbn [made]; intros Hin.
      - scan Hin. by injection Hin.
      - apply elem_of_cons in Hin as [Hin|Hin]; [by injection Hin|].
        revert Hin. rewrite (run_with_Do h).
        destruct (h _ st4) as [[e|r5] st5]; cbn [run_with made]; intros Hin;
          scan Hin. }
    split; [by exists u, st1, st2|]. do 2 right. left.
  - apply elem_of_cons in Hin as [Hin|Hin]; [discriminate Hin|].
    revert Hin. rewrite (run_with_Do h).
    destruct (h _ st2) as [[e|r3] st3]; cbn [run_with made]; intros Hin; scan Hin.
Qed.

Lemma remove_deletes_what_it_found_witness :
  (exists u st1 st2,
     handle (app Stellar.new) ready_world = (inr u, st1) /\
     handle (app (Stellar.get_snapshot "v1")) st1 = (inr (Some (v1_record true None)), st2)) /\
  click_echo "Deleting snapshot v1" ∈
    made (run_with handle (command.remove "v1") ready_world).
Proof.
  apply (remove_deletes_what_it_found handle ready_world "v1" (v1_record true None)).
  apply list_elem_of_In. vm_compute. do 3 right. left. reflexivity.
Defined.

(** X8.  Whatever the application object does, [replace] calls
    [create_snapshot] only under the name it was given, without a progress
    callback, and only after [remove_snapshot] has returned for the record
    its lookup found. *)
Theorem replace_creates_after_removing {S : Type} (h : handler S) (st : S)
    (name n : string) (hk : option hook) :
  app (Stellar.create_snapshot n hk) ∈ made (run_with h (command.replace name) st) ->
  n = name /\ hk = None /\
  exists s u0 u st1 st2 st3,
    h (app Stellar.new) st = (inr u0, st1) /\
    h (app (Stellar.get_snapshot name)) st1 = (inr (Some s), st2) /\
    h (app (Stellar.remove_snapshot s)) st2 = (inr u, st3).
Proof.
  unfold command.replace, command.get_app, mbind, Prog_bind, echo, call, perform.
  cbn [bind]. rewrite (run_with_Do h).
  destruct (h (app Stellar.new) st) as [[e|u] st1] eqn:Hnew; cbn [made];
    intros Hin; [scan Hin|].
  apply elem_of_cons in Hin as [Hin|Hin]; [discriminate Hin|].
  revert Hin. rewrite (run_with_Do h).
  destruct (h (app (Stellar.get_snapshot name)) st1) as [[e|[found|]] st2] eqn:Hget;
    cbn [made bind]; intros Hin; [scan Hin| |].
  - apply elem_of_cons in Hin as [Hin|Hin]; [discriminate Hin|].
    revert Hin. rewrite (run_with_Do h).
    destruct (h (app (Stellar.remove_snapshot found)) st2) as [[e|r3] st3] eqn:Hrm;
      cbn [made]; intros Hin; [scan Hin|].
    apply elem_of_cons in Hin as [Hin|Hin]; [discriminate Hin|].
    assert (n = name /\ hk = None) as [-> ->].
    { revert Hin. rewrite (run_with_Do h).
      destruct (h _ st3) as [[e|r4] st4]; cbn [made]; intros Hin.
      - scan Hin. by injection Hin.
      - apply elem_of_cons in Hin as [Hin|Hin]; [by injection Hin|].
        revert Hin. rewrite (run_with_Do h).
        destruct (h _ st4) as [[e|r5] st5]; cbn [run_with made]; intros Hin;
          scan Hin. }
    split_and!; try done. by exists found, u, r3, st1, st2, st3.
  - apply elem_of_cons in Hin as [Hin|Hin]; [discriminate Hin|].
    revert Hin. rewrite (run_with_Do h).
    destruct (h _ st2) as [[e|r3] st3]; cbn [run_with made]; intros Hin; scan Hin.
Qed.

Lemma replace_creates_after_removing_witness :
  "v1" = "v1" /\ @None hook = None /\
  exists s u0 u st1 st2 st3,
    handle (app Stellar.new) ready_world = (inr u0, st1) /\
    handle (app (Stellar.get_snapshot "v1")) st1 = (inr (Some s), st2) /\
    handle (app (Stellar.remove_snapshot s)) st2 = (inr u, st3).
Proof.
  apply (replace_creates_after_removing handle ready_world "v1" "v1" None).
  apply list_elem_of_In. vm_compute. do 3 right. left. reflexivity.
Defined.

(** ** Which snapshot [restore] looks for *)

Lemma wait_for_slaves_calls_mono (allowed : Op -> bool) (budget : nat) (s : Snapshot) :
  allowed (stdout_write ".") = true -> allowed stdout_flush = true ->
  allowed (sleep 1) = true ->
  (forall s', allowed (app (Stellar.refresh s')) = true) ->
  calls_only allowed (command.wait_for_slaves budget s).
Proof.
  intros H1 H2 H3 H4. revert s. induction budget as [|budget IH]; intros s;
    cbn [command.wait_for_slaves]; destruct (slaves_ready s); cbn; try done;
    repeat split; intros; first [done | apply IH].
Qed.

(** X6.  Whatever the application object does, once it is constructed the
    first thing [restore] asks of it is the snapshot: without a name, or
    with the empty name, the latest snapshot; with a name, the snapshot of
    exactly that name.  It asks once: no later call looks a snapshot up
    again, and with a name the configuration is never read.  So without a
    name [get_snapshot] is never called, and with a name neither
    [get_latest_snapshot] nor [load_config] is. *)
Theorem restore_looks_for_the_right_snapshot {S : Type} (h : handler S) (st : S)
    (budget : nat) (name : option string) :
  let r := run_with h (command.restore budget name) st in
  let lookup := if truthy name then app (Stellar.get_snapshot (given name))
                else app Stellar.get_latest_snapshot in
  ((exists e, ended r = Raised e /\ made r = [app Stellar.new]) \/
   (exists rest, made r = app Stellar.new :: lookup :: rest /\
      forall op, op ∈ rest ->
        op <> app Stellar.get_latest_snapshot /\
        (forall n, op <> app (Stellar.get_snapshot n)) /\
        (truthy name = true -> op <> load_config))) /\
  (forall op, op ∈ made r ->
     op = app Stellar.new \/
     (if truthy name then restore_calls_named (given name) op
      else restore_calls_unnamed op) = true).
Proof.
  cbn zeta.
  assert (Hrest : forall s : Snapshot,
            calls_only (after_lookup name)
              (snapshot' ← restore_readiness budget s;
               call (Stellar.restore snapshot');; echo "Restore complete.")).
  { intros s. unfold restore_readiness, mbind, Prog_bind, echo, call, perform.
    destruct (slaves_ready s); cbn [negb bind calls_only]; [repeat split; done|].
    split; [done|]. intros [|]; cbn [bind calls_only]; repeat split; try done.
    intros. apply calls_only_bind; [|intros; cbn; repeat split; done].
    apply calls_only_bind; [by apply wait_for_slaves_calls_mono|].
    intros; cbn; repeat split; done. }
  assert (Hsplit : forall op, after_lookup name op = true ->
            op <> app Stellar.get_latest_snapshot /\
            (forall n, op <> app (Stellar.get_snapshot n)) /\
            (truthy name = true -> op <> load_config)).
  { intros op Hop. split_and!.
    - by intros ->.
    - by intros n ->.
    - intros Hn ->. cbn in Hop. by rewrite Hn in Hop. }
  assert (Hbound : forall op, after_lookup name op = true ->
            (if truthy name then restore_calls_named (given name) op
             else restore_calls_unnamed op) = true).
  { intros op Hop. destruct op as [[]| | | | | | |]; try done;
      cbn in Hop |- *; destruct (truthy name); done. }
  rewrite restore_stages.
  unfold command.get_app, mbind, Prog_bind, call, perform. cbn [bind].
  rewrite (run_with_Do h).
  destruct (h (app Stellar.new) st) as [[e|r] st1]; cbn [ended made].
  { split; [left; by exists e|].
    intros op Hin. apply list_elem_of_singleton in Hin. by left. }
  unfold restore_lookup, mbind, Prog_bind, echo, call, perform.
  destruct (truthy name) eqn:Hname; cbn [negb bind]; rewrite (run_with_Do h).
  - destruct (h (app (Stellar.get_snapshot (given name))) st1) as [[e|found] st2];
      cbn [ended made].
    + split.
      * right. exists []. split; [done|]. intros op Hin. by apply elem_of_nil in Hin.
      * intros op Hin. apply elem_of_cons in Hin as [->|Hin]; [by left|].
        apply list_elem_of_singleton in Hin as ->. right. cbn.
        by apply bool_decide_eq_true.
    + assert (Hk : forall op,
                op ∈ made (run_with h
                  (bind match found with
                        | Some s => Ret s
                        | None =>
                            bind (Do (click_echo
                                    ("Couldn't find snapshot with name " +:+ given name +:+
                                     "." +:+ newline +:+
                                     "You can list snapshots with 'stellar list'")) Ret)
                                 (fun _ => Exit 1)
                        end
                        (fun snapshot =>
                           bind (restore_readiness budget snapshot)
                             (fun snapshot' =>
                                bind (Do (app (Stellar.restore snapshot')) Ret)
                                  (fun _ => Do (click_echo "Restore complete.") Ret))))
                  st2) ->
                after_lookup name op = true).
      { apply calls_only_sound. destruct found as [s|]; cbn [bind calls_only].
        - apply Hrest.
        - repeat split; done. }
      split.
      * right. eexists. split; [done|]. intros op Hin.
        apply Hsplit. by apply Hk.
      * intros op Hin. apply elem_of_cons in Hin as [->|Hin]; [by left|].
        apply elem_of_cons in Hin as [->|Hin].
        -- right. cbn. by apply bool_decide_eq_true.
        -- right. exact (Hbound op (Hk op Hin)).
  - destruct (h (app Stellar.get_latest_snapshot) st1) as [[e|found] st2];
      cbn [ended made].
    + split.
      * right. exists []. split; [done|]. intros op Hin. by apply elem_of_nil in Hin.
      * intros op Hin. apply elem_of_cons in Hin as [->|Hin]; [by left|].
        apply list_elem_of_singleton in Hin as ->. by right.
    + assert (Hk : forall op,
                op ∈ made (run_with h
                  (bind match found with
                        | Some s => Ret s
                        | None =>
                            bind (Do load_config Ret)
                              (fun cfg =>
                                 bind (Do (click_echo
                                        ("Couldn't find any snapshots for project " +:+
                                         project_name cfg)) Ret)
                                      (fun _ => Exit 1))
                        end
                        (fun snapshot =>
                           bind (restore_readiness budget snapshot)
                             (fun snapshot' =>
                                bind (Do (app (Stellar.restore snapshot')) Ret)
                                  (fun _ => Do (click_echo "Restore complete.") Ret))))
                  st2) ->
                after_lookup name op = true).
      { apply calls_only_sound. destruct found as [s|]; cbn [bind calls_only].
        - apply Hrest.
        - repeat split; try done. cbn. by rewrite Hname. }
      split.
      * right. eexists. split; [done|]. intros op Hin.
        apply Hsplit. by apply Hk.
      * intros op Hin. apply elem_of_cons in Hin as [->|Hin]; [by left|].
        apply elem_of_cons in Hin as [->|Hin].
        -- by right.
        -- right. exact (Hbound op (Hk op Hin)).
Qed.

Lemma restore_looks_for_the_right_snapshot_witness :
  (exists rest,
     made (run_with handle (command.restore 3 (Some "v1")) ready_world) =
     app Stellar.new :: app (Stellar.get_snapshot "v1") :: rest) /\
  (exists rest,
     made (run_with handle (command.restore 3 None) ready_world) =
     app Stellar.new :: app Stellar.get_latest_snapshot :: rest).
Proof.
  split.
  - destruct (restore_looks_for_the_right_snapshot handle ready_world 3 (Some "v1"))
      as [[(e & He & _)|(rest & Hmade & _)] _].
    + vm_compute in He. discriminate He.
    + exists rest. exact Hmade.
  - destruct (restore_looks_for_the_right_snapshot handle ready_world 3 None)
      as [[(e & He & _)|(rest & Hmade & _)] _].
    + vm_compute in He. discriminate He.
    + exists rest. exact Hmade.
Defined.

(** ** What [list] prints *)

Lemma list_lines_run (snapshots : list Snapshot) (w : World) :
  result (run (command.list_lines snapshots) w) = Returned (listed w <$> snapshots) /\
  final (run (command.list_lines snapshots) w) = w.
Proof.
  induction snapshots as [|s rest IH]; cbn [command.list_lines]; [done|].
  unfold mbind, Prog_bind, perform. cbn [bind].
  do 2 step_io. cbn [after result final].
  rewrite run_bind.
  destruct IH as [-> ->]. done.
Qed.

(** X9.  With a resolved configuration and a live connection, [list] prints in
    a single [echo] one line for each snapshot [get_snapshots] returns, in
    that order and separated by newlines (an empty line when there is
    none), and changes nothing else. *)
Theorem list_prints_every_snapshot (w : World) :
  up w ->
  let r := run command.list w in
  result r = Returned tt /\
  final r = echoed (join_lines (listed w <$> registry w)) w.
Proof.
  intros Hup. cbn zeta. unfold command.list. open_command.
  step_app Hup. step_app Hup. cbn [after result final].
  unfold mbind, Prog_bind. rewrite run_bind.
  destruct (list_lines_run (registry w) w) as [-> ->].
  cbn zeta. step_io. done.
Qed.

Lemma list_prints_every_snapshot_witness :
  stdout (final (run command.list two_snapshots_world)) =
  [("v1: a moment ago" +:+ newline +:+ "v2: a moment ago") +:+ newline].
Proof.
  destruct (list_prints_every_snapshot two_snapshots_world) as [_ H].
  - split; [by eexists | done].
  - cbn zeta in H. by rewrite H.
Defined.

(** ** What [remove] reports *)

(** X10.  With a resolved configuration and a live connection: for a name
    without a record [remove] prints that it could not find it, exits with
    status 1 and changes nothing else; for a name with a record it
    announces the deletion, calls [remove_snapshot] on that record and
    then prints "Deleted". *)
Theorem remove_outcomes (w : World) (name : string) :
  up w ->
  let r := run (command.remove name) w in
  match Registry.get name (registry w) with
  | None =>
      result r = Exited 1 /\
      final r = echoed ("Couldn't find snapshot " +:+ name) w /\
      calls r = [app Stellar.new; app (Stellar.get_snapshot name);
                 click_echo ("Couldn't find snapshot " +:+ name)]
  | Some s =>
      result r = Returned tt /\
      final r = echoed "Deleted"
                  (Engine.remove s (echoed ("Deleting snapshot " +:+ name) w)) /\
      calls r = [app Stellar.new; app (Stellar.get_snapshot name);
                 click_echo ("Deleting snapshot " +:+ name);
                 app (Stellar.remove_snapshot s); click_echo "Deleted"]
  end.
Proof.
  intros Hup. cbn zeta. unfold command.remove. open_command.
  step_app Hup. step_app Hup.
  destruct (Registry.get name (registry w)) as [s|]; open_command.
  - step_io.
    assert (Hup1 : up (echoed ("Deleting snapshot " +:+ name) w))
      by (by apply (up_same w)).
    step_app Hup1. step_io. done.
  - step_io. done.
Qed.

Lemma remove_outcomes_witness :
  result (run (command.remove "v9") ready_world) = Exited 1 /\
  registry (final (run (command.remove "v9") ready_world)) = [v1_record true None] /\
  result (run (command.remove "v1") ready_world) = Returned tt /\
  stdout (final (run (command.remove "v1") ready_world)) =
  ["Deleting snapshot v1" +:+ newline; "Deleted" +:+ newline].
Proof.
  assert (Hup : up ready_world) by (split; [by eexists | done]).
  pose proof (remove_outcomes ready_world "v9" Hup) as (H1 & H2 & _).
  pose proof (remove_outcomes ready_world "v1" Hup) as (H3 & H4 & _).
  cbn zeta in *. rewrite H1, H2, H3, H4. done.
Defined.

(** ** Which help [main] prints for a missing driver *)

(** X11.  The [ImportError] clause of [main] looks for "No module named" and a
    driver name in the message, in this order of precedence: psycopg2
    first, then MySQLdb (already while psycopg2 is being tried), then
    pymysql.  A message naming both pymysql and MySQLdb therefore gets the
    MySQLdb text.  Without "No module named", or without any of the three
    names, nothing is printed and the exception is raised again. *)
Theorem import_error_help (w : World) (message : string) :
  let r := run (on_import_error libraries message) w in
  if negb (contains "No module named" message) then r = mkRun (Returned tt) w []
  else if contains "psycopg2" message then
    result r = Exited 1 /\
    calls r = [click_echo ("Python library " +:+ "psycopg2" +:+ " is required for " +:+
                           "PostgreSQL" +:+ " support.");
               click_echo "You can install it with pip:";
               click_echo ("pip install " +:+ "psycopg2")]
  else if contains "MySQLdb" message then
    result r = Exited 1 /\
    head (calls r) =
    Some (click_echo ("MySQLdb binary drivers are required for MySQL support. " +:+
                      "You can try installing it with these instructions: " +:+
                      "http://stackoverflow.com/questions/454854/no-module-named" +:+
                      "-mysqldb")) /\
    length (calls r) = 5
  else if contains "pymysql" message then
    result r = Exited 1 /\
    calls r = [click_echo ("Python library " +:+ "pymysql" +:+ " is required for " +:+
                           "MySQL" +:+ " support.");
               click_echo "You can install it with pip:";
               click_echo ("pip install " +:+ "pymysql")]
  else r = mkRun (Returned tt) w [].
Proof.
  cbn zeta. unfold libraries. cbn [on_import_error].
  destruct (contains "No module named" message);
    destruct (contains "psycopg2" message);
    destruct (contains "MySQLdb" message);
    destruct (contains "pymysql" message);
    cbn [andb negb]; try done;
    open_command; repeat step_io; done.
Qed.

(** ** The two quick branches of [restore], on concrete worlds *)

Lemma restore_ready_witness :
  calls (run (command.restore 3 (Some "v1")) ready_world) =
  [app Stellar.new; app (Stellar.get_snapshot "v1");
   app (Stellar.restore (v1_record true None)); click_echo "Restore complete."].
Proof.
  assert (Hup : up ready_world) by (split; [by eexists | done]).
  assert (Hname : "v1" <> "") by discriminate.
  pose proof (restore_ready ready_world 3 "v1" (v1_record true None)
                Hup Hname eq_refl eq_refl) as (_ & H & _).
  exact H.
Defined.

Lemma restore_without_worker_witness :
  result (run (command.restore 3 (Some "v1")) abandoned_world) = Returned tt.
Proof.
  assert (Hup : up abandoned_world) by (split; [by eexists | done]).
  assert (Hname : "v1" <> "") by discriminate.
  pose proof (restore_without_worker abandoned_world 3 "v1"
                (v1_record false (Some 100)) Hup Hname eq_refl eq_refl eq_refl)
    as (H & _).
  exact H.
Defined.

(** ** The [init] wizard *)

Lemma append_cons (x : Ascii.ascii) (a b : string) :
  String x a +:+ b = String x (a +:+ b).
Proof. reflexivity. Qed.

Lemma append_empty (b : string) : "" +:+ b = b.
Proof. reflexivity. Qed.

Lemma append_assoc (a b c : string) : (a +:+ b) +:+ c = a +:+ b +:+ c.
Proof.
  induction a as [|x a IH]; [by rewrite !append_empty|].
  by rewrite !append_cons, IH.
Qed.

Lemma count_slashes_app (a b : string) :
  wizard.count_slashes (a +:+ b) = wizard.count_slashes a + wizard.count_slashes b.
Proof.
  induction a as [|x a IH]; [by rewrite append_empty|].
  rewrite append_cons. cbn [wizard.count_slashes]. rewrite IH. lia.
Qed.

Lemma ends_with_slash_app (a : string) :
  wizard.ends_with_slash (a +:+ "/") = true.
Proof.
  induction a as [|x a IH]; [done|].
  rewrite append_cons. cbn [wizard.ends_with_slash].
  destruct (a +:+ "/") eqn:Ha; [by destruct a|]. exact IH.
Qed.

Lemma rsplit_slash_None (s : string) :
  wizard.rsplit_slash s = None -> wizard.count_slashes s = 0.
Proof.
  induction s as [|x s IH]; cbn; [done|].
  destruct (wizard.rsplit_slash s) as [[before last]|]; [done|].
  destruct (Ascii.eqb x wizard.slash); [done|]. intros _. by rewrite IH.
Qed.

Lemma rsplit_slash_Some (s before last : string) :
  wizard.rsplit_slash s = Some (before, last) ->
  s = before +:+ "/" +:+ last /\ wizard.count_slashes last = 0.
Proof.
  revert before. induction s as [|x s IH]; intros before; cbn; [done|].
  destruct (wizard.rsplit_slash s) as [[b l]|] eqn:Hs.
  - intros [= <- <-]. destruct (IH b eq_refl) as [-> Hl]. done.
  - destruct (Ascii.eqb x wizard.slash) eqn:Hx; [|done].
    intros [= <- <-]. apply Ascii.eqb_eq in Hx as ->.
    split; [done|]. by apply rsplit_slash_None.
Qed.

(** X14.  Splitting the database off a URL loses nothing: when the URL has a
    slash, what is before its last slash, a slash, and what is after it
    make up the URL again, and the part after it has no slash; a URL
    without a slash is returned whole as both parts. *)
Theorem rsplit_round_trip (url : string) :
  if decide (wizard.count_slashes url = 0)
  then wizard.rsplit_first url = url /\ wizard.rsplit_last url = url
  else wizard.rsplit_first url +:+ "/" +:+ wizard.rsplit_last url = url /\
       wizard.count_slashes (wizard.rsplit_last url) = 0.
Proof.
  unfold wizard.rsplit_first, wizard.rsplit_last.
  destruct (wizard.rsplit_slash url) as [[before last]|] eqn:Hsplit.
  - apply rsplit_slash_Some in Hsplit as [-> Hlast].
    rewrite decide_False; [done|].
    rewrite !count_slashes_app. change (wizard.count_slashes "/") with 1. lia.
  - apply rsplit_slash_None in Hsplit. by rewrite decide_True.
Qed.

(** X15.  A URL with exactly two slashes and no slash at its end ("dialect://host")
    is taken as the URL of a server: [init] runs on it exactly as on the
    same URL with a slash appended. *)
Theorem init_completes_bare_host (ext : wizard.Externals) (url : string)
    (project : option string) (typed : list string) (c : wizard.Console) :
  wizard.count_slashes url = 2 -> wizard.ends_with_slash url = false ->
  wizard.names_server (wizard.add_slash url) = true /\
  wizard.init ext (Some url) project typed c =
  wizard.init ext (Some (url +:+ "/")) project typed c.
Proof.
  intros Hcount Hend.
  assert (Hadd : wizard.add_slash url = url +:+ "/").
  { unfold wizard.add_slash. by rewrite Hcount, Hend. }
  assert (Hadd' : wizard.add_slash (url +:+ "/") = url +:+ "/").
  { unfold wizard.add_slash. rewrite count_slashes_app, Hcount. done. }
  split.
  - rewrite Hadd. unfold wizard.names_server.
    by rewrite count_slashes_app, Hcount, ends_with_slash_app.
  - unfold wizard.init, wizard.connect_loop, wizard.try_url, given.
    cbn [default id]. rewrite Hadd', Hadd.
    destruct url as [|x url]; [done|]. by rewrite append_cons.
Qed.

Lemma init_completes_bare_host_witness :
  wizard.init sample_server (Some "postgresql://localhost") None ["shop"; ""] blank_console =
  wizard.init sample_server (Some "postgresql://localhost/") None ["shop"; ""] blank_console.
Proof.
  apply (init_completes_bare_host sample_server "postgresql://localhost"); reflexivity.
Defined.

Lemma try_url_connected (ext : wizard.Externals) (line url dialect : string)
    (c : wizard.Console) :
  wizard.try_url ext line c = inl (url, dialect) ->
  url = wizard.add_slash line /\
  wizard.create_engine ext url = inr dialect /\ wizard.connect ext url = None.
Proof.
  unfold wizard.try_url.
  destruct (wizard.create_engine ext (wizard.add_slash line)) as [err|d] eqn:He; [done|].
  destruct (wizard.connect ext (wizard.add_slash line)) as [err|] eqn:Hc; [done|].
  by intros [= <- <-].
Qed.

Lemma try_url_failed (ext : wizard.Externals) (line : string) (c c' : wizard.Console) :
  wizard.try_url ext line c = inr c' ->
  wizard.stellar_yaml c' = wizard.stellar_yaml c.
Proof.
  unfold wizard.try_url.
  destruct (wizard.create_engine ext _) as [err|d]; [by intros [= <-]|].
  destruct (wizard.connect ext _) as [err|]; [by intros [= <-]|done].
Qed.

Lemma ask_until_connected_spec (ext : wizard.Externals) (typed : list string)
    (c : wizard.Console) :
  match wizard.ask_until_connected ext typed c with
  | (Some (url, dialect, _), c') =>
      wizard.create_engine ext url = inr dialect /\ wizard.connect ext url = None /\
      wizard.stellar_yaml c' = wizard.stellar_yaml c
  | (None, c') => wizard.stellar_yaml c' = wizard.stellar_yaml c
  end.
Proof.
  revert c. induction typed as [|line rest IH]; intros c;
    cbn [wizard.ask_until_connected]; [done|].
  destruct line as [|x line].
  - specialize (IH (wizard.ask wizard.url_prompt c)).
    by destruct (wizard.ask_until_connected ext rest _) as [[[[u d] r]|] c'].
  - destruct (wizard.try_url ext (String x line) _) as [[u d]|c1] eqn:Htry.
    + by apply try_url_connected in Htry as (_ & ? & ?).
    + apply try_url_failed in Htry. specialize (IH c1).
      destruct (wizard.ask_until_connected ext rest c1) as [[[[u d] r]|] c'];
        [destruct IH as (? & ? & ->) | rewrite IH]; done.
Qed.

Lemma connect_loop_spec (ext : wizard.Externals) (url : option string)
    (typed : list string) (c : wizard.Console) :
  match wizard.connect_loop ext url typed c with
  | (Some (url, dialect, _), c') =>
      wizard.create_engine ext url = inr dialect /\ wizard.connect ext url = None /\
      wizard.stellar_yaml c' = wizard.stellar_yaml c
  | (None, c') => wizard.stellar_yaml c' = wizard.stellar_yaml c
  end.
Proof.
  unfold wizard.connect_loop. destruct (truthy url).
  - destruct (wizard.try_url ext (given url) c) as [[u d]|c1] eqn:Htry.
    + by apply try_url_connected in Htry as (_ & ? & ?).
    + apply try_url_failed in Htry.
      pose proof (ask_until_connected_spec ext typed c1) as H.
      destruct (wizard.ask_until_connected ext typed c1) as [[[[u d] r]|] c'];
        [destruct H as (? & ? & ->) | rewrite H]; done.
  - apply ask_until_connected_spec.
Qed.

Lemma choose_database_spec (ext : wizard.Externals) (conn : string)
    (typed : list string) (announce : bool) (c : wizard.Console) :
  match wizard.choose_database ext conn typed announce c with
  | (Some (db_name, _), c') =>
      wizard.database_exists ext conn db_name = true /\ db_name <> "" /\
      wizard.stellar_yaml c' = wizard.stellar_yaml c
  | (None, c') => wizard.stellar_yaml c' = wizard.stellar_yaml c
  end.
Proof.
  revert announce c. induction typed as [|line rest IH]; intros announce c;
    cbn [wizard.choose_database].
  - by destruct announce.
  - destruct line as [|x line].
    + match goal with |- context [wizard.choose_database ext conn rest false ?c1] =>
        specialize (IH false c1);
        destruct (wizard.choose_database ext conn rest false c1) as [[[db r]|] c']
      end; [destruct IH as (? & ? & ->) | rewrite IH]; by destruct announce.
    + destruct (wizard.database_exists ext conn (String x line)) eqn:Hdb.
      * split_and!; [done | done | by destruct announce].
      * match goal with |- context [wizard.choose_database ext conn rest true ?c1] =>
          specialize (IH true c1);
          destruct (wizard.choose_database ext conn rest true c1) as [[[db r]|] c']
        end; [destruct IH as (? & ? & ->) | rewrite IH]; by destruct announce.
Qed.

Lemma choose_project_keeps (project : option string) (db_name : string)
    (typed : list string) (c : wizard.Console) :
  wizard.stellar_yaml (wizard.choose_project project db_name typed c).2 =
  wizard.stellar_yaml c.
Proof.
  unfold wizard.choose_project. destruct project; [done|].
  by destruct typed as [|[|x line] rest].
Qed.

(** X16.  [init] writes stellar.yaml only at its end: an aborted wizard leaves
    the file as it was, whatever was typed.  What a finished wizard writes
    comes from a URL whose engine was created and whose connection opened
    (whether its dialect is supported or not); the database it names was
    either split off that URL or, for the URL of a server, typed in and
    found to exist. *)
Theorem init_writes_after_connecting (ext : wizard.Externals)
    (url project : option string) (typed : list string) (c : wizard.Console) :
  let r := wizard.init ext url project typed c in
  match r.1.1 with
  | wizard.Aborted => wizard.stellar_yaml r.2 = wizard.stellar_yaml c
  | wizard.Finished =>
      exists u dialect db_name name base,
        wizard.create_engine ext u = inr dialect /\
        wizard.connect ext u = None /\
        (if wizard.names_server u
         then base = u /\ wizard.database_exists ext u db_name = true /\ db_name <> ""
         else base = wizard.rsplit_first u +:+ "/" /\ db_name = wizard.rsplit_last u) /\
        wizard.stellar_yaml r.2 =
        Some (wizard.yaml_text name db_name
                (if String.eqb dialect "postgresql" then base +:+ db_name else base)
                base)
  end.
Proof.
  cbn zeta. unfold wizard.init.
  pose proof (connect_loop_spec ext url typed c) as Hconn.
  destruct (wizard.connect_loop ext url typed c) as [[[[u d] typed1]|] c1];
    [|exact Hconn].
  destruct Hconn as (Hengine & Hopen & Hc1).
  set (c2 := if bool_decide (d ∈ wizard.SUPPORTED_DIALECTS ext) then c1 else _).
  assert (Hc2 : wizard.stellar_yaml c2 = wizard.stellar_yaml c).
  { unfold c2. by destruct (bool_decide _). }
  destruct (wizard.names_server u) eqn:Hserver.
  - pose proof (choose_database_spec ext u typed1 true c2) as Hdb.
    destruct (wizard.choose_database ext u typed1 true c2) as [[[db typed2]|] c3];
      [|cbn; by rewrite Hdb].
    destruct Hdb as (Hexists & Hdb & Hc3).
    pose proof (choose_project_keeps project db typed2 c3) as Hproj.
    destruct (wizard.choose_project project db typed2 c3) as [[[name typed3]|] c4];
      cbn [fst snd] in *; [|by rewrite Hproj, Hc3].
    exists u, d, db, name, u. rewrite Hserver.
    split_and!; try done. by destruct (String.eqb d "mysql").
  - pose proof (choose_project_keeps project (wizard.rsplit_last u) typed1 c2) as Hproj.
    destruct (wizard.choose_project project _ typed1 c2) as [[[name typed3]|] c4];
      cbn [fst snd] in *; [|by rewrite Hproj].
    exists u, d, (wizard.rsplit_last u), name, (wizard.rsplit_first u +:+ "/").
    rewrite Hserver. split_and!; try done. by destruct (String.eqb d "mysql").
Qed.

(** X17.  With a URL that names its database and a project name on the command
    line, [init] asks nothing and reads nothing: it writes the file and
    ends.  For PostgreSQL the URL written is the URL given (with the
    slash [init] may have added); for any other dialect it is the URL
    without the database. *)
Theorem init_without_questions (ext : wizard.Externals) (url name dialect : string)
    (typed : list string) (c : wizard.Console) :
  url <> "" ->
  wizard.create_engine ext (wizard.add_slash url) = inr dialect ->
  wizard.connect ext (wizard.add_slash url) = None ->
  wizard.names_server (wizard.add_slash url) = false ->
  wizard.count_slashes url <> 0 ->
  let u := wizard.add_slash url in
  let r := wizard.init ext (Some url) (Some name) typed c in
  r.1.1 = wizard.Finished /\ r.1.2 = typed /\
  wizard.asked r.2 = wizard.asked c /\
  wizard.stellar_yaml r.2 =
  Some (wizard.yaml_text name (wizard.rsplit_last u)
          (if String.eqb dialect "postgresql" then u
           else wizard.rsplit_first u +:+ "/")
          (wizard.rsplit_first u +:+ "/")) /\
  wizard.shown r.2 =
  wizard.shown c ++
  (if bool_decide (dialect ∈ wizard.SUPPORTED_DIALECTS ext) then []
   else [("Your engine dialect " +:+ dialect +:+ " is not supported.") +:+ newline;
         ("Supported dialects: " +:+
          wizard.join_commas (wizard.SUPPORTED_DIALECTS ext)) +:+ newline]) ++
  ["Wrote stellar.yaml" +:+ newline; "" +:+ newline] ++
  (if String.eqb dialect "mysql"
   then ["Warning: MySQL support is still in beta." +:+ newline] else []) ++
  ["Tip: You probably want to take a snapshot: stellar snapshot" +:+ newline].
Proof.
  intros Hurl Hengine Hopen Hserver Hslash. cbn zeta.
  unfold wizard.init, wizard.connect_loop, wizard.try_url.
  destruct url as [|x url]; [done|]. cbn [truthy given default id].
  rewrite Hengine, Hopen, Hserver. cbn [wizard.choose_project fst snd].
  assert (Hjoin : (wizard.rsplit_first (wizard.add_slash (String x url)) +:+ "/") +:+
                  wizard.rsplit_last (wizard.add_slash (String x url)) =
                  wizard.add_slash (String x url)).
  { pose proof (rsplit_round_trip (wizard.add_slash (String x url))) as Hrt.
    rewrite decide_False in Hrt.
    - rewrite append_assoc. by destruct Hrt.
    - unfold wizard.add_slash. destruct (_ && _); [|done].
      rewrite count_slashes_app. lia. }
  rewrite Hjoin.
  destruct (bool_decide (dialect ∈ wizard.SUPPORTED_DIALECTS ext)),
    (String.eqb dialect "mysql");
    cbn [wizard.say wizard.write wizard.shown wizard.asked wizard.stellar_yaml];
    rewrite <- ?app_assoc; done.
Qed.

Lemma init_without_questions_witness :
  wizard.stellar_yaml
    (wizard.init sample_server (Some "postgresql://localhost/shop") (Some "myshop")
       ["never read"] blank_console).2 =
  Some (wizard.yaml_text "myshop" "shop" "postgresql://localhost/shop"
          "postgresql://localhost/").
Proof.
  assert (Hurl : "postgresql://localhost/shop" <> "") by discriminate.
  assert (Hslash : wizard.count_slashes "postgresql://localhost/shop" <> 0)
    by discriminate.
  exact (proj1 (proj2 (proj2 (proj2
           (init_without_questions sample_server "postgresql://localhost/shop"
              "myshop" "postgresql" ["never read"] blank_console
              Hurl eq_refl eq_refl eq_refl Hslash))))).
Defined.

(** ** A command that exits has changed nothing *)

Lemma exits_before_mutating_sound {S A : Type} (h : handler S) (p : Prog A) (st : S)
    (status : nat) :
  exits_before_mutating p ->
  ended (run_with h p st) = Exited status ->
  forall op, op ∈ made (run_with h p st) -> mutating op = false.
Proof.
  revert st. induction p as [a|n| |op k IH]; intros st Hp;
    cbn [run_with ended made].
  - done.
  - intros _ op Hin. by apply elem_of_nil in Hin.
  - done.
  - cbn [exits_before_mutating] in Hp.
    destruct (h op st) as [[e|r] st'] eqn:Hop; cbn [ended made]; [done|].
    destruct (mutating op) eqn:Hmut.
    + intros Hend.
      by pose proof (exits_only_sound h _ (k r) st' status (Hp r) Hend).
    + intros Hend op' [->|Hin]%elem_of_cons; [done|]. by apply (IH r st').
Qed.

Lemma exits_before_mutating_bind {A B : Type} (p : Prog A) (f : A -> Prog B) :
  calls_only (fun op => negb (mutating op)) p ->
  (forall a, exits_before_mutating (f a)) ->
  exits_before_mutating (bind p f).
Proof.
  intros Hp Hf. induction p as [a|n| |op k IH];
    cbn [bind exits_before_mutating]; try done.
  destruct Hp as [Hop Hk]. apply negb_true_iff in Hop. rewrite Hop.
  intros r. by apply IH.
Qed.

Lemma list_lines_quiet (snapshots : list Snapshot) :
  calls_only (fun op => negb (mutating op)) (command.list_lines snapshots).
Proof.
  apply (calls_only_mono list_calls); [|apply list_lines_calls].
  by intros [[]| | | | | | |].
Qed.

Lemma command_exits_before_mutating (budget : nat) (args : argv) :
  exits_before_mutating (stellar budget args).
Proof.
  destruct args as [|name| |name|name|old_name new_name|name]; cbn [stellar].
  - unfold command.gc, mbind, Prog_bind, command.get_app, echo, call, perform.
    cbn. done.
  - unfold command.snapshot, mbind, Prog_bind, command.get_app, echo, call, perform.
    cbn. intros _. destruct (truthy name); cbn; [|intros d]; intros [s|]; cbn; done.
  - unfold command.list, mbind, Prog_bind, command.get_app, echo, call, perform.
    cbn. intros _ snapshots.
    apply exits_before_mutating_bind; [apply list_lines_quiet|]. by intros; cbn.
  - unfold command.restore, mbind, Prog_bind, command.get_app, echo, call, perform.
    cbn. intros _. destruct (truthy name); cbn; intros [s|]; cbn; try done;
      (destruct (slaves_ready s); cbn; [done|]);
      intros [|]; cbn; try done; intros _ _;
      (apply exits_before_mutating_bind; [|by intros; cbn]);
      (apply calls_only_bind; [by apply wait_for_slaves_calls_mono | by intros; cbn]).
  - unfold command.remove, mbind, Prog_bind, command.get_app, echo, call, perform.
    cbn. intros _ [s|]; cbn; done.
  - unfold command.rename, mbind, Prog_bind, command.get_app, echo, call, perform.
    cbn. intros _ [s|]; cbn; [|done]. intros [t|]; cbn; done.
  - unfold command.replace, mbind, Prog_bind, command.get_app, echo, call, perform.
    cbn. intros _ [s|]; cbn; done.
Qed.

(** X4.  Whatever the application object does, a command that ends in
    [sys.exit] has made no call that changes the registry, the storage or
    a tracked database: every exit comes before the first such call. *)
Theorem exit_means_nothing_changed {S : Type} (h : handler S) (st : S)
    (budget : nat) (args : argv) (status : nat) (op : Op) :
  ended (run_with h (stellar budget args) st) = Exited status ->
  op ∈ made (run_with h (stellar budget args) st) ->
  mutating op = false.
Proof.
  intros Hend.
  exact (exits_before_mutating_sound h _ st status
           (command_exits_before_mutating budget args) Hend op).
Qed.

Lemma exit_means_nothing_changed_witness :
  mutating (app (Stellar.get_snapshot "v1")) = false.
Proof.
  apply (exit_means_nothing_changed handle ready_world 0 (run_snapshot (Some "v1")) 1).
  - reflexivity.
  - apply list_elem_of_In. vm_compute. right. left. reflexivity.
Defined.
